(** * pcsd/public/js/dev/tests-cluster-setup.js

    A shallow embedding of the cluster-setup mock responders of pcsd's
    developer harness, and the properties of them that the specification
    states.

    The file has three layers:
    - the fragment of ECMAScript the responders rely on (strings, JSON-like
      values, property reads, [JSON.parse], [JSON.stringify], [x < 1]);
    - the harness state ([wasRun], [dev.flags.cluster_overview_run]) and the
      functions of the source file, one definition per JavaScript function;
    - the theorems. *)

From Stdlib Require Import List NArith ZArith Bool Ascii String DecimalString Lia.
Import ListNotations.

Set Implicit Arguments.
Set Warnings "-register-all".

(** ** JavaScript strings

    A JavaScript string is a sequence of 16-bit code units. *)

Definition jsstring := list N.

Definition str (s : string) : jsstring :=
  map N_of_ascii (list_ascii_of_string s).
Arguments str s%_string.

Fixpoint jsstring_eqb (a b : jsstring) : bool :=
  match a, b with
  | [], [] => true
  | x :: a', y :: b' => (x =? y)%N && jsstring_eqb a' b'
  | _, _ => false
  end.

Declare Scope js_scope.
Delimit Scope js_scope with js.
Infix "=?" := jsstring_eqb (at level 70) : js_scope.
Local Open Scope js_scope.

(** ** Numbers

    Number values are IEEE 754 doubles.  The responders never compute with
    them: the model takes the Number operations of the language as an
    interface, together with the two facts about [<] it relies on. *)

Class NumberOps := {
  number : Type;
  number_NaN : number;
  (** the Number value of a non-negative integer *)
  number_of_N : N -> number;
  (** StringToNumber, also the value of a JSON number token *)
  StringToNumber : jsstring -> number;
  (** Number::toString, radix 10 *)
  Number_toString : number -> jsstring;
  Number_isFinite : number -> bool;
  (** Number::lessThan; its [undefined] answer (a NaN operand) read as
      [false], as the [<] operator does *)
  Number_lessThan : number -> number -> bool;
  lessThan_NaN : forall y, Number_lessThan number_NaN y = false;
  lessThan_one : forall n,
    Number_lessThan (number_of_N n) (number_of_N 1) = (n <? 1)%N
}.

Section Harness.

Context {NO : NumberOps}.

(** ** Values

    The values a payload or a fixture is made of: the primitive values, and
    arrays and plain objects of them.  An object lists its own properties in
    enumeration order, each key once. *)

Inductive JSValue :=
| VUndefined
| VNull
| VBool (b : bool)
| VNum (n : number)
| VStr (s : jsstring)
| VArr (elems : list JSValue)
| VObj (props : list (jsstring * JSValue)).

Inductive JSError :=
| TypeError
| SyntaxError
| Thrown (v : JSValue).

(** The completion of an evaluation: a value, or a thrown exception. *)
Inductive Completion (A : Type) :=
| Normal (a : A)
| Throw (e : JSError).
Arguments Throw {A} e.

Definition cbind {A B} (c : Completion A) (k : A -> Completion B) : Completion B :=
  match c with
  | Normal a => k a
  | Throw e => Throw e
  end.

Notation "'let?' x := c 'in' k" := (cbind c (fun x => k))
  (at level 10, x name, c at level 100, k at level 200).

(** *** Property reads *)

Fixpoint own_property (props : list (jsstring * JSValue)) (key : jsstring) : JSValue :=
  match props with
  | [] => VUndefined
  | (k, v) :: rest => if k =? key then v else own_property rest key
  end.

Fixpoint has_own_property (props : list (jsstring * JSValue)) (key : jsstring) : bool :=
  match props with
  | [] => false
  | (k, _) :: rest => (k =? key) || has_own_property rest key
  end.

(** The property names the source file reads from data. *)
Inductive PropName := setup_data | force_flags | length_.

Definition prop_key (p : PropName) : jsstring :=
  match p with
  | setup_data => str "setup_data"
  | force_flags => str "force_flags"
  | length_ => str "length"
  end.

Definition VLength (n : nat) : JSValue := VNum (number_of_N (N.of_nat n)).

(** [v.p]: a TypeError on [undefined] and [null]; an own property of an
    object; [length] of an array or a string; [undefined] otherwise (none of
    the three names is defined on a built-in prototype). *)
Definition GetV (v : JSValue) (p : PropName) : Completion JSValue :=
  match v with
  | VUndefined | VNull => Throw TypeError
  | VBool _ | VNum _ => Normal VUndefined
  | VStr s => Normal (match p with length_ => VLength (List.length s) | _ => VUndefined end)
  | VArr elems => Normal (match p with length_ => VLength (List.length elems) | _ => VUndefined end)
  | VObj props => Normal (own_property props (prop_key p))
  end.

(** *** Conversions *)

(** ToString.  An array is joined with commas, [undefined] and [null]
    elements giving the empty string.  A plain object gives
    ["[object Object]"] through [Object.prototype.toString], unless an own
    (data, hence not callable) [toString] property shadows it: then no
    method yields a primitive and the conversion throws. *)
Fixpoint ToString (v : JSValue) : Completion jsstring :=
  match v with
  | VUndefined => Normal (str "undefined")
  | VNull => Normal (str "null")
  | VBool true => Normal (str "true")
  | VBool false => Normal (str "false")
  | VNum n => Normal (Number_toString n)
  | VStr s => Normal s
  | VArr elems =>
      (fix join (l : list JSValue) : Completion jsstring :=
         match l with
         | [] => Normal []
         | x :: rest =>
             let? s := match x with
                       | VUndefined | VNull => Normal []
                       | _ => ToString x
                       end in
             match rest with
             | [] => Normal s
             | _ => let? r := join rest in Normal (s ++ str "," ++ r)
             end
         end) elems
  | VObj props =>
      if has_own_property props (str "toString") then Throw TypeError
      else Normal (str "[object Object]")
  end.

(** ToPrimitive: for an array or a plain object both hints end in the
    [toString] method. *)
Definition ToPrimitive (v : JSValue) : Completion JSValue :=
  match v with
  | VArr _ | VObj _ => let? s := ToString v in Normal (VStr s)
  | _ => Normal v
  end.

(** ToNumber of a primitive value. *)
Definition ToNumber (v : JSValue) : number :=
  match v with
  | VNull | VBool false => number_of_N 0
  | VBool true => number_of_N 1
  | VNum n => n
  | VStr s => StringToNumber s
  | _ => number_NaN
  end.

(** [v < 1]. *)
Definition less_than_1 (v : JSValue) : Completion bool :=
  let? p := ToPrimitive v in
  Normal (Number_lessThan (ToNumber p) (number_of_N 1)).

(** *** JSON.parse

    A recursive-descent reading of the JSON grammar.  White space is tab,
    line feed, carriage return and space. *)

Definition is_ws (c : N) : bool :=
  ((c =? 9) || (c =? 10) || (c =? 13) || (c =? 32))%N.

Fixpoint skip_ws (s : jsstring) : jsstring :=
  match s with
  | c :: rest => if is_ws c then skip_ws rest else s
  | [] => []
  end.

Definition is_digit (c : N) : bool := ((48 <=? c) && (c <=? 57))%N.

Definition hex_digit (c : N) : option N :=
  if is_digit c then Some (c - 48)%N
  else if ((97 <=? c) && (c <=? 102))%N then Some (c - 87)%N
  else if ((65 <=? c) && (c <=? 70))%N then Some (c - 55)%N
  else None.

(** The character a single-letter escape stands for. *)
Definition simple_escape (c : N) : option N :=
  match c with
  | 34 => Some 34 | 92 => Some 92 | 47 => Some 47
  | 98 => Some 8 | 102 => Some 12 | 110 => Some 10
  | 114 => Some 13 | 116 => Some 9
  | _ => None
  end%N.

(** The characters of a string literal after its opening quote, up to the
    closing one; [acc] holds the characters read so far, last first. *)
Fixpoint parse_chars (s acc : jsstring) : option (jsstring * jsstring) :=
  match s with
  | [] => None
  | c :: rest =>
      if (c =? 34)%N then Some (rev acc, rest)
      else if (c =? 92)%N then
        match rest with
        | [] => None
        | e :: rest1 =>
            if (e =? 117)%N then
              match rest1 with
              | h1 :: h2 :: h3 :: h4 :: rest2 =>
                  match hex_digit h1, hex_digit h2, hex_digit h3, hex_digit h4 with
                  | Some d1, Some d2, Some d3, Some d4 =>
                      parse_chars rest2 (((d1 * 16 + d2) * 16 + d3) * 16 + d4 :: acc)%N
                  | _, _, _, _ => None
                  end
              | _ => None
              end
            else
              match simple_escape e with
              | Some x => parse_chars rest1 (x :: acc)
              | None => None
              end
        end
      else if (c <? 32)%N then None
      else parse_chars rest (c :: acc)
  end.

Fixpoint scan_digits (s : jsstring) : jsstring * jsstring :=
  match s with
  | c :: rest =>
      if is_digit c then let (ds, r) := scan_digits rest in (c :: ds, r)
      else ([], s)
  | [] => ([], [])
  end.

(** [expect c s]: what follows [c] when [s] starts with it. *)
Definition expect (c : N) (s : jsstring) : option jsstring :=
  match s with
  | x :: rest => if (x =? c)%N then Some rest else None
  | [] => None
  end.

(** The parts of a number token, [-? int frac? exp?]: each gives the text
    it reads and what follows it. *)
Definition scan_sign (s : jsstring) : jsstring * jsstring :=
  match expect 45 s with
  | Some rest => ([45%N], rest)
  | None => ([], s)
  end.

(** A single zero, or digits that do not start with zero. *)
Definition scan_int (s : jsstring) : option (jsstring * jsstring) :=
  match s with
  | [] => None
  | c :: rest =>
      if (c =? 48)%N then Some ([c], rest)
      else if is_digit c then Some (scan_digits s)
      else None
  end.

Definition scan_frac (s : jsstring) : option (jsstring * jsstring) :=
  match expect 46 s with
  | Some rest =>
      match scan_digits rest with
      | ([], _) => None
      | (ds, rest') => Some (46%N :: ds, rest')
      end
  | None => Some ([], s)
  end.

Definition scan_exp_sign (s : jsstring) : jsstring * jsstring :=
  match s with
  | x :: rest => if ((x =? 43) || (x =? 45))%N then ([x], rest) else ([], s)
  | [] => ([], s)
  end.

Definition scan_exp (s : jsstring) : option (jsstring * jsstring) :=
  match s with
  | e :: rest =>
      if ((e =? 101) || (e =? 69))%N then
        let (esign, rest1) := scan_exp_sign rest in
        match scan_digits rest1 with
        | ([], _) => None
        | (ds, rest2) => Some (e :: esign ++ ds, rest2)
        end
      else Some ([], s)
  | [] => Some ([], s)
  end.

(** The text of a number token and what follows it. *)
Definition scan_number (s : jsstring) : option (jsstring * jsstring) :=
  let (sign, s1) := scan_sign s in
  match scan_int s1 with
  | None => None
  | Some (int, s2) =>
      match scan_frac s2 with
      | None => None
      | Some (frac, s3) =>
          match scan_exp s3 with
          | None => None
          | Some (exp, s4) => Some (sign ++ int ++ frac ++ exp, s4)
          end
      end
  end.

(** Canonical array indices ("0", "1", ... up to 2^32 - 2) are enumerated
    first, in ascending order, whatever the order of creation. *)
Fixpoint digits_value (s : jsstring) (acc : N) : option N :=
  match s with
  | [] => Some acc
  | c :: rest => if is_digit c then digits_value rest (acc * 10 + (c - 48))%N else None
  end.

Definition array_index (k : jsstring) : option N :=
  match k with
  | [] => None
  | [48%N] => Some 0%N
  | 48%N :: _ => None
  | _ =>
      match digits_value k 0 with
      | Some n => if (n <? 4294967295)%N then Some n else None
      | None => None
      end
  end.

(** Where a new key goes in the enumeration order. *)
Fixpoint insert_property (props : list (jsstring * JSValue)) (key : jsstring)
    (v : JSValue) : list (jsstring * JSValue) :=
  match props with
  | [] => [(key, v)]
  | (k, w) :: rest =>
      let before :=
        match array_index key, array_index k with
        | Some i, Some j => (i <? j)%N
        | Some _, None => true
        | None, _ => false
        end in
      if before then (key, v) :: props else (k, w) :: insert_property rest key v
  end.

Fixpoint replace_property (props : list (jsstring * JSValue)) (key : jsstring)
    (v : JSValue) : list (jsstring * JSValue) :=
  match props with
  | [] => []
  | (k, w) :: rest =>
      if k =? key then (k, v) :: rest else (k, w) :: replace_property rest key v
  end.

(** CreateDataProperty on a plain object: a later duplicate overwrites. *)
Definition set_property (props : list (jsstring * JSValue)) (key : jsstring)
    (v : JSValue) : list (jsstring * JSValue) :=
  if has_own_property props key then replace_property props key v
  else insert_property props key v.

Inductive Parsed (A : Type) :=
| POk (a : A) (rest : jsstring)
| PErr
| PFuel.
Arguments PErr {A}.
Arguments PFuel {A}.

Definition literal (word : string) (v : JSValue) (s : jsstring) : Parsed JSValue :=
  let w := str word in
  if firstn (List.length w) s =? w then POk v (skipn (List.length w) s) else PErr.

Fixpoint parse_value (fuel : nat) (s : jsstring) : Parsed JSValue :=
  match fuel with
  | O => PFuel
  | S f =>
      match skip_ws s with
      | [] => PErr
      | c :: r =>
          if (c =? 123)%N then
            match expect 125 (skip_ws r) with
            | Some r' => POk (VObj []) r'
            | None => parse_members f r []
            end
          else if (c =? 91)%N then
            match expect 93 (skip_ws r) with
            | Some r' => POk (VArr []) r'
            | None => parse_elements f r []
            end
          else if (c =? 34)%N then
            match parse_chars r [] with
            | Some (t, r') => POk (VStr t) r'
            | None => PErr
            end
          else if (c =? 116)%N then literal "true" (VBool true) (c :: r)
          else if (c =? 102)%N then literal "false" (VBool false) (c :: r)
          else if (c =? 110)%N then literal "null" VNull (c :: r)
          else
            match scan_number (c :: r) with
            | Some (tok, r') => POk (VNum (StringToNumber tok)) r'
            | None => PErr
            end
      end
  end
with parse_elements (fuel : nat) (s : jsstring) (acc : list JSValue) : Parsed JSValue :=
  match fuel with
  | O => PFuel
  | S f =>
      match parse_value f s with
      | POk v r =>
          match skip_ws r with
          | c :: r' =>
              if (c =? 44)%N then parse_elements f r' (v :: acc)
              else if (c =? 93)%N then POk (VArr (rev (v :: acc))) r'
              else PErr
          | [] => PErr
          end
      | PErr => PErr
      | PFuel => PFuel
      end
  end
with parse_members (fuel : nat) (s : jsstring) (acc : list (jsstring * JSValue))
    : Parsed JSValue :=
  match fuel with
  | O => PFuel
  | S f =>
      match expect 34 (skip_ws s) with
      | Some r =>
          match parse_chars r [] with
          | Some (key, r1) =>
              match expect 58 (skip_ws r1) with
              | Some r2 =>
                  match parse_value f r2 with
                  | POk v r3 =>
                      match skip_ws r3 with
                      | c :: r4 =>
                          if (c =? 44)%N then parse_members f r4 (set_property acc key v)
                          else if (c =? 125)%N then POk (VObj (set_property acc key v)) r4
                          else PErr
                      | [] => PErr
                      end
                  | PErr => PErr
                  | PFuel => PFuel
                  end
              | None => PErr
              end
          | None => PErr
          end
      | None => PErr
      end
  end.

(** The recursion is bounded by the length of the text (see
    [parse_value_fuel]). *)
Definition parse_fuel (s : jsstring) : nat := 2 * List.length s + 1.

Definition JSON_parse_text (s : jsstring) : Completion JSValue :=
  match parse_value (parse_fuel s) s with
  | POk v r =>
      match skip_ws r with
      | [] => Normal v
      | _ => Throw SyntaxError
      end
  | _ => Throw SyntaxError
  end.

(** [JSON.parse(text)]: the argument is converted to a string first. *)
Definition JSON_parse (text : JSValue) : Completion JSValue :=
  let? s := ToString text in JSON_parse_text s.

(** *** JSON.stringify *)

Definition hex_char (d : N) : N := (if d <? 10 then 48 + d else 87 + d)%N.

(** [\uXXXX], in lower-case hexadecimal. *)
Definition unicode_escape (c : N) : jsstring :=
  [92; 117; hex_char (c / 4096 mod 16); hex_char (c / 256 mod 16);
   hex_char (c / 16 mod 16); hex_char (c mod 16)]%N.

Definition is_high_surrogate (c : N) : bool := ((55296 <=? c) && (c <=? 56319))%N.
Definition is_low_surrogate (c : N) : bool := ((56320 <=? c) && (c <=? 57343))%N.

(** The escaped form of one code unit that is not part of a surrogate pair. *)
Definition quote_unit (c : N) : jsstring :=
  match c with
  | 8 => [92; 98] | 9 => [92; 116] | 10 => [92; 110]
  | 12 => [92; 102] | 13 => [92; 114]
  | 34 => [92; 34] | 92 => [92; 92]
  | _ =>
      if (c <? 32) || is_high_surrogate c || is_low_surrogate c
      then unicode_escape c else [c]
  end%N.

Fixpoint quote_units (s : jsstring) : jsstring :=
  match s with
  | [] => []
  | c :: rest =>
      match rest with
      | d :: rest' =>
          if is_high_surrogate c && is_low_surrogate d
          then c :: d :: quote_units rest'
          else quote_unit c ++ quote_units rest
      | [] => quote_unit c
      end
  end.

Definition QuoteJSONString (s : jsstring) : jsstring :=
  34%N :: quote_units s ++ [34%N].

Fixpoint join_with (sep : jsstring) (parts : list jsstring) : jsstring :=
  match parts with
  | [] => []
  | [p] => p
  | p :: rest => p ++ sep ++ join_with sep rest
  end.

(** SerializeJSONProperty, with no replacer and no indentation; [None] is
    the [undefined] result.  In an array an [undefined] element is written
    [null]; in an object a property whose value is [undefined] is left out. *)
Fixpoint SerializeJSONProperty (v : JSValue) : option jsstring :=
  match v with
  | VUndefined => None
  | VNull => Some (str "null")
  | VBool true => Some (str "true")
  | VBool false => Some (str "false")
  | VNum n => Some (if Number_isFinite n then Number_toString n else str "null")
  | VStr s => Some (QuoteJSONString s)
  | VArr elems =>
      let items :=
        (fix each (l : list JSValue) : list jsstring :=
           match l with
           | [] => []
           | x :: rest =>
               match SerializeJSONProperty x with
               | Some t => t
               | None => str "null"
               end :: each rest
           end) elems in
      Some (str "[" ++ join_with (str ",") items ++ str "]")
  | VObj props =>
      let members :=
        (fix each (l : list (jsstring * JSValue)) : list jsstring :=
           match l with
           | [] => []
           | (k, x) :: rest =>
               match SerializeJSONProperty x with
               | Some t => (QuoteJSONString k ++ str ":" ++ t) :: each rest
               | None => each rest
               end
           end) props in
      Some (str "{" ++ join_with (str ",") members ++ str "}")
  end.

Definition JSON_stringify (v : JSValue) : JSValue :=
  match SerializeJSONProperty v with
  | Some s => VStr s
  | None => VUndefined
  end.

(** ** The harness

    The state the source file keeps, and what it does to the outside: the
    two callbacks of a request, the console, the dialog and its inputs. *)

Inductive CallbackName := OnSuccess | OnFailure.

Inductive Event :=
| Invoked (cb : CallbackName) (args : list JSValue)
| ConsoleGroup (label : jsstring)
| ConsoleLog (v : jsstring)
| ConsoleGroupEnd
| DialogCreate
| SetVal (selector value : jsstring).

Record Store := mkStore {
  (** [dev.utils.clusterSetupDialog.wasRun] *)
  wasRun : bool;
  (** [dev.flags.cluster_overview_run] *)
  cluster_overview_run : JSValue;
  (** the calls made so far, oldest first *)
  effects : list Event
}.

(** A computation reads and writes the store, and returns or throws. *)
Definition M (A : Type) := Store -> Completion A * Store.

Definition ret {A} (a : A) : M A := fun st => (Normal a, st).

Definition bind {A B} (m : M A) (k : A -> M B) : M B :=
  fun st =>
    match m st with
    | (Normal a, st') => k a st'
    | (Throw e, st') => (Throw e, st')
    end.

Definition lift {A} (c : Completion A) : M A := fun st => (c, st).

Notation "x <- m ;; k" := (bind m (fun x => k))
  (at level 61, m at next level, right associativity).
Notation "m ;; k" := (bind m (fun _ => k))
  (at level 61, right associativity).

Definition record (st : Store) (evs : list Event) : Store :=
  mkStore (wasRun st) (cluster_overview_run st) (effects st ++ evs).

Definition emit (e : Event) : M unit := fun st => (Normal tt, record st [e]).

Definition get_wasRun : M bool := fun st => (Normal (wasRun st), st).

Definition set_wasRun (b : bool) : M unit :=
  fun st => (Normal tt, mkStore b (cluster_overview_run st) (effects st)).

Definition get_cluster_overview_run : M JSValue :=
  fun st => (Normal (cluster_overview_run st), st).

Definition set_cluster_overview_run (v : JSValue) : M unit :=
  fun st => (Normal tt, mkStore (wasRun st) v (effects st)).

(** A callback is a function of the argument list. *)
Definition Callback := list JSValue -> M JSValue.

(** *** Fixtures

    [dev.fixture] and [mock] belong to other files of the harness; the
    responders treat their members as constants. *)

Class Fixtures := {
  dev_fixture_success : JSValue;
  dev_fixture_libErrorUnforcibleLarge : JSValue;
  dev_fixture_libException : JSValue;
  (** [dev.fixture.libError(forcible)] *)
  dev_fixture_libError : bool -> JSValue;
  mock_clusters_overview : JSValue
}.

Context {FX : Fixtures}.

(** *** dev.utils.clusterSetupDialog.prefill *)

Definition quoted (s : jsstring) : jsstring := 34%N :: s ++ [34%N].

(** The selector [input[name^="clustername"]]. *)
Definition clustername_input : jsstring :=
  str "input[name^=" ++ quoted (str "clustername") ++ str "]".

(** The selector [#create_new_cluster input[name="node-i"]]. *)
Definition node_input (name : jsstring) : jsstring :=
  str "#create_new_cluster input[name=" ++ quoted name ++ str "]".

Definition prefill : M JSValue :=
  run <- get_wasRun ;;
  if run then ret VUndefined
  else
    set_wasRun true ;;
    emit DialogCreate ;;
    emit (SetVal clustername_input (str "starbug8")) ;;
    emit (SetVal (node_input (str "node-1")) (str "dave8")) ;;
    emit (SetVal (node_input (str "node-2")) (str "kryten8")) ;;
    emit (SetVal (node_input (str "node-3")) (str "holly8")) ;;
    ret VUndefined.

(** *** The function handed to dev.patch.ajax_wrapper

    The [case] has no [break]: when the flag is set, control falls through
    to [default]. *)
Definition overview_override (url : jsstring) : M JSValue :=
  if url =? str "/clusters_overview" then
    flag <- get_cluster_overview_run ;;
    match flag with
    | VUndefined =>
        set_cluster_overview_run (VBool true) ;;
        emit (ConsoleGroup (str "Wrapping ajax_wrapper")) ;;
        emit (ConsoleLog url) ;;
        emit ConsoleGroupEnd ;;
        ret mock_clusters_overview
    | _ => ret VUndefined
    end
  else ret VUndefined.

(** *** testClusterSetup *)

Definition url_check_auth := str "/manage/check_auth_against_nodes".
Definition url_send_known_hosts := str "/manage/send-known-hosts-to-node".
Definition url_cluster_setup := str "/manage/cluster-setup".
Definition url_remember_cluster := str "/manage/remember-cluster".
Definition url_clusters_overview := str "/clusters_overview".

Definition successPath (url : jsstring) (data : JSValue) (success fail : Callback)
    : M JSValue :=
  if url =? url_check_auth then
    success [JSON_stringify (VObj [(str "dave8", VStr (str "Online"));
                                   (str "kryten8", VStr (str "Online"));
                                   (str "holly8", VStr (str "Online"))])]
  else if url =? url_send_known_hosts then success [VStr (str "success")]
  else if url =? url_cluster_setup then success [JSON_stringify dev_fixture_success]
  else if url =? url_remember_cluster then success []
  else ret VUndefined.

Definition checkAuth500 (url : jsstring) (data : JSValue) (success fail : Callback)
    : M JSValue :=
  if url =? url_check_auth then
    fail [VNum (number_of_N 500); VStr (str "Somethig is wrong")]
  else if url =? url_send_known_hosts then success [VStr (str "success")]
  else ret VUndefined.

Definition checkAuthFails (url : jsstring) (data : JSValue) (success fail : Callback)
    : M JSValue :=
  if url =? url_check_auth then fail []
  else ret VUndefined.

Definition checkAuthNodesNotAuth (url : jsstring) (data : JSValue)
    (success fail : Callback) : M JSValue :=
  if url =? url_check_auth then
    success [JSON_stringify (VObj [(str "dave8", VStr (str "Online"));
                                   (str "kryten8", VStr (str "Unable to authenticate"));
                                   (str "holly8", VStr (str "Cant connect"))])]
  else ret VUndefined.

Definition sendKnownHosts403 (url : jsstring) (data : JSValue) (success fail : Callback)
    : M JSValue :=
  if url =? url_send_known_hosts then
    fail [VNum (number_of_N 403); VStr (str "Permission denied.")]
  else successPath url data success fail.

Definition sendKnownHostsFail (url : jsstring) (data : JSValue) (success fail : Callback)
    : M JSValue :=
  if url =? url_send_known_hosts then success [VStr (str "error")]
  else successPath url data success fail.

Definition sendKnownHostsUnsupported (url : jsstring) (data : JSValue)
    (success fail : Callback) : M JSValue :=
  if url =? url_send_known_hosts then success [VStr (str "not_supported")]
  else successPath url data success fail.

Definition sendKnownHostsUnknownFail (url : jsstring) (data : JSValue)
    (success fail : Callback) : M JSValue :=
  if url =? url_send_known_hosts then success [VStr (str "unknown")]
  else successPath url data success fail.

Definition clusterSetup403 (url : jsstring) (data : JSValue) (success fail : Callback)
    : M JSValue :=
  if url =? url_cluster_setup then
    fail [VNum (number_of_N 403); VStr (str "Permission denied.")]
  else successPath url data success fail.

Definition clusterSetup500 (url : jsstring) (data : JSValue) (success fail : Callback)
    : M JSValue :=
  if url =? url_cluster_setup then
    fail [VNum (number_of_N 500); VStr (str "Somethig is wrong")]
  else successPath url data success fail.

Definition clusterSetupUnforcible (url : jsstring) (data : JSValue)
    (success fail : Callback) : M JSValue :=
  if url =? url_cluster_setup then
    success [JSON_stringify dev_fixture_libErrorUnforcibleLarge]
  else successPath url data success fail.

Definition clusterSetupException (url : jsstring) (data : JSValue)
    (success fail : Callback) : M JSValue :=
  if url =? url_cluster_setup then success [JSON_stringify dev_fixture_libException]
  else successPath url data success fail.

(** [JSON.parse(data.setup_data).force_flags.length < 1] *)
Definition force_flags_length_lt_1 (data : JSValue) : Completion bool :=
  let? text := GetV data setup_data in
  let? decoded := JSON_parse text in
  let? flags := GetV decoded force_flags in
  let? len := GetV flags length_ in
  less_than_1 len.

Definition clusterSetupForceFail (url : jsstring) (data : JSValue)
    (success fail : Callback) : M JSValue :=
  if url =? url_cluster_setup then
    b <- lift (force_flags_length_lt_1 data) ;;
    success [JSON_stringify (dev_fixture_libError b)]
  else successPath url data success fail.

Definition clusterSetupForceFailForcible (url : jsstring) (data : JSValue)
    (success fail : Callback) : M JSValue :=
  if url =? url_cluster_setup then success [JSON_stringify (dev_fixture_libError true)]
  else successPath url data success fail.

(** The [case] ends without [break]: when the condition is false, control
    falls through to [default]. *)
Definition clusterSetupForce (url : jsstring) (data : JSValue) (success fail : Callback)
    : M JSValue :=
  if url =? url_cluster_setup then
    b <- lift (force_flags_length_lt_1 data) ;;
    if b then success [JSON_stringify (dev_fixture_libError true)]
    else successPath url data success fail
  else successPath url data success fail.

Definition rememberFail (url : jsstring) (data : JSValue) (success fail : Callback)
    : M JSValue :=
  if url =? url_remember_cluster then
    fail [VNum (number_of_N 500); VStr (str "Server error")]
  else successPath url data success fail.

(** The members of [testClusterSetup]. *)
Inductive Scenario :=
| SuccessPath
| CheckAuth500
| CheckAuthFails
| CheckAuthNodesNotAuth
| SendKnownHosts403
| SendKnownHostsFail
| SendKnownHostsUnsupported
| SendKnownHostsUnknownFail
| ClusterSetup403
| ClusterSetup500
| ClusterSetupUnforcible
| ClusterSetupException
| ClusterSetupForceFail
| ClusterSetupForceFailForcible
| ClusterSetupForce
| RememberFail.

Definition testClusterSetup (s : Scenario)
    : jsstring -> JSValue -> Callback -> Callback -> M JSValue :=
  match s with
  | SuccessPath => successPath
  | CheckAuth500 => checkAuth500
  | CheckAuthFails => checkAuthFails
  | CheckAuthNodesNotAuth => checkAuthNodesNotAuth
  | SendKnownHosts403 => sendKnownHosts403
  | SendKnownHostsFail => sendKnownHostsFail
  | SendKnownHostsUnsupported => sendKnownHostsUnsupported
  | SendKnownHostsUnknownFail => sendKnownHostsUnknownFail
  | ClusterSetup403 => clusterSetup403
  | ClusterSetup500 => clusterSetup500
  | ClusterSetupUnforcible => clusterSetupUnforcible
  | ClusterSetupException => clusterSetupException
  | ClusterSetupForceFail => clusterSetupForceFail
  | ClusterSetupForceFailForcible => clusterSetupForceFailForcible
  | ClusterSetupForce => clusterSetupForce
  | RememberFail => rememberFail
  end.

(** *** Observing a responder

    A callback that records its call and answers as [answer] says. *)
Definition spy (cb : CallbackName) (answer : list JSValue -> Completion JSValue)
    : Callback :=
  fun args => emit (Invoked cb args) ;; lift (answer args).

Definition request (s : Scenario) (url : jsstring) (data : JSValue)
    (on_success on_failure : list JSValue -> Completion JSValue) : M JSValue :=
  testClusterSetup s url data (spy OnSuccess on_success) (spy OnFailure on_failure).

(** The state after the file is loaded: [wasRun] is initialized to [false],
    and no other file sets [dev.flags.cluster_overview_run]. *)
Definition loaded : Store := mkStore false VUndefined [].

(** The events of [st'] that [st] does not have yet. *)
Definition new_effects (st st' : Store) : list Event :=
  skipn (List.length (effects st)) (effects st').

(** What the rest of the harness may do with the functions of this file. *)
Inductive Action :=
| Prefill
| Overview (url : jsstring)
| Request (s : Scenario) (url : jsstring) (data : JSValue)
    (on_success on_failure : list JSValue -> Completion JSValue).

Definition perform (a : Action) : M JSValue :=
  match a with
  | Prefill => prefill
  | Overview url => overview_override url
  | Request s url data on_success on_failure => request s url data on_success on_failure
  end.

(** The store after a sequence of actions (an exception ends one action,
    not the page). *)
Fixpoint perform_all (acts : list Action) (st : Store) : Store :=
  match acts with
  | [] => st
  | a :: rest => perform_all rest (snd (perform a st))
  end.

(** The composed scenarios, each with the URL of its own [case]. *)
Definition delegating_case (s : Scenario) : option jsstring :=
  match s with
  | SendKnownHosts403 | SendKnownHostsFail | SendKnownHostsUnsupported
  | SendKnownHostsUnknownFail => Some url_send_known_hosts
  | ClusterSetup403 | ClusterSetup500 | ClusterSetupUnforcible
  | ClusterSetupException | ClusterSetupForceFail | ClusterSetupForceFailForcible
  | ClusterSetupForce => Some url_cluster_setup
  | RememberFail => Some url_remember_cluster
  | SuccessPath | CheckAuth500 | CheckAuthFails | CheckAuthNodesNotAuth => None
  end.

End Harness.

Arguments Throw {NO A} e.
Arguments PErr {A}.
Arguments PFuel {A}.

Notation "'let?' x := c 'in' k" := (cbind c (fun x => k))
  (at level 10, x name, c at level 100, k at level 200).
Notation "x <- m ;; k" := (bind m (fun x => k))
  (at level 61, m at next level, right associativity).
Notation "m ;; k" := (bind m (fun _ => k))
  (at level 61, right associativity).

(** ** A concrete reading of the interfaces

    Used to run the model on concrete requests. *)

(** Integers and NaN, which is all the requests run below contain. *)
Inductive sample_number := SNaN | SInt (z : Z).

Fixpoint digits_Z (s : jsstring) (acc : Z) : option Z :=
  match s with
  | [] => Some acc
  | c :: rest =>
      if is_digit c then digits_Z rest (acc * 10 + Z.of_N (c - 48))%Z else None
  end.

(** Decimal integer numerals, and the empty string, which is zero. *)
Definition sample_StringToNumber (s : jsstring) : sample_number :=
  match s with
  | [] => SInt 0
  | [45%N] => SNaN
  | 45%N :: rest =>
      match digits_Z rest 0 with
      | Some z => SInt (- z)
      | None => SNaN
      end
  | _ =>
      match digits_Z s 0 with
      | Some z => SInt z
      | None => SNaN
      end
  end.

Definition sample_toString (n : sample_number) : jsstring :=
  match n with
  | SNaN => str "NaN"
  | SInt z => str (NilZero.string_of_int (Z.to_int z))
  end.

Definition sample_lessThan (a b : sample_number) : bool :=
  match a, b with
  | SInt x, SInt y => (x <? y)%Z
  | _, _ => false
  end.

Lemma sample_lessThan_one (n : N) :
  sample_lessThan (SInt (Z.of_N n)) (SInt (Z.of_N 1)) = (n <? 1)%N.
Proof.
  unfold sample_lessThan.
  destruct (N.ltb_spec n 1), (Z.ltb_spec (Z.of_N n) (Z.of_N 1)); trivial; lia.
Qed.

Definition sample_numbers : NumberOps := {|
  number := sample_number;
  number_NaN := SNaN;
  number_of_N := fun n => SInt (Z.of_N n);
  StringToNumber := sample_StringToNumber;
  Number_toString := sample_toString;
  Number_isFinite := fun n => match n with SNaN => false | SInt _ => true end;
  Number_lessThan := sample_lessThan;
  lessThan_NaN := fun _ => eq_refl;
  lessThan_one := sample_lessThan_one
|}.

(** Modelled from the spec: [dev.fixture] and [mock] are filled in by other
    files of the harness.  The spec calls them canned JSON-encodable
    response bodies: a success body, a large non-forcible library error, an
    exception marker, a library error that is forcible or not, and the
    overview. *)
Definition sample_fixtures : @Fixtures sample_numbers := {|
  dev_fixture_success :=
    VObj [(str "status", VStr (str "success")); (str "report_list", VArr [])];
  dev_fixture_libErrorUnforcibleLarge :=
    VObj [(str "status", VStr (str "error"));
          (str "report_list",
           VArr [VObj [(str "severity", VStr (str "ERROR")); (str "forceable", VNull)];
                 VObj [(str "severity", VStr (str "ERROR")); (str "forceable", VNull)]])];
  dev_fixture_libException :=
    VObj [(str "status", VStr (str "exception")); (str "report_list", VArr [])];
  dev_fixture_libError := fun forcible =>
    VObj [(str "status", VStr (str "error"));
          (str "report_list",
           VArr [VObj [(str "severity", VStr (str "ERROR"));
                       (str "forceable",
                        if forcible then VStr (str "FORCE") else VNull)]])];
  mock_clusters_overview := VObj [(str "cluster_list", VArr [])]
|}.

(** [{setup_data: JSON.stringify({force_flags: flags})}] *)
Definition setup_payload {NO : NumberOps} (flags : JSValue) : JSValue :=
  VObj [(str "setup_data", JSON_stringify (VObj [(str "force_flags", flags)]))].

(** [["--force"]] *)
Definition force_flag {NO : NumberOps} : JSValue := VArr [VStr (str "--force")].

(** A callback answer: nothing is returned. *)
Definition no_answer {NO : NumberOps} (args : list JSValue) : Completion JSValue :=
  Normal VUndefined.

(** ** Properties *)

Unset Implicit Arguments.

Section Properties.

Context {NO : NumberOps} {FX : Fixtures}.

Local Open Scope js_scope.

Lemma jsstring_eqb_refl (a : jsstring) : (a =? a) = true.
Proof.
  induction a as [|x a IH]; simpl; trivial.
  now rewrite N.eqb_refl.
Qed.

Lemma jsstring_eqb_eq (a b : jsstring) : (a =? b) = true <-> a = b.
Proof.
  split.
  - revert b; induction a as [|x a IH]; intros [|y b] H; simpl in H;
      try discriminate; trivial.
    apply andb_true_iff in H as [Hx Hab].
    apply N.eqb_eq in Hx. apply IH in Hab. congruence.
  - intros ->. apply jsstring_eqb_refl.
Qed.

Lemma jsstring_eqb_neq (a b : jsstring) : a <> b -> (a =? b) = false.
Proof.
  intros H. destruct (a =? b) eqn:E; trivial.
  apply jsstring_eqb_eq in E. contradiction.
Qed.

Lemma spy_run (cb : CallbackName) (answer : list JSValue -> Completion JSValue)
    (args : list JSValue) (st : Store) :
  spy cb answer args st = (answer args, record st [Invoked cb args]).
Proof. reflexivity. Qed.

Lemma record_nil (st : Store) : record st [] = st.
Proof. destruct st; unfold record; simpl. now rewrite app_nil_r. Qed.

Lemma record_record (st : Store) (evs evs' : list Event) :
  record (record st evs) evs' = record st (evs ++ evs').
Proof. unfold record; simpl. now rewrite app_assoc. Qed.

Lemma new_effects_record (st : Store) (evs : list Event) :
  new_effects st (record st evs) = evs.
Proof.
  unfold new_effects, record; simpl.
  induction (effects st); simpl; trivial.
Qed.

(** *** JSON.parse never runs out of fuel

    What follows a token is no longer than the text it was read from, so
    the fuel [parse_fuel] gives is enough for any text. *)

Lemma skip_ws_length (s : jsstring) : List.length (skip_ws s) <= List.length s.
Proof.
  induction s as [|c s IH]; simpl; trivial.
  destruct (is_ws c); simpl; lia.
Qed.

Lemma expect_length (c : N) (s rest : jsstring) :
  expect c s = Some rest -> List.length s = S (List.length rest).
Proof.
  destruct s as [|x s]; simpl; [discriminate|].
  destruct (x =? c)%N; [|discriminate]. now intros [= ->].
Qed.

Lemma parse_chars_length (n : nat) :
  forall s acc t r,
    List.length s <= n -> parse_chars s acc = Some (t, r) ->
    List.length r < List.length s.
Proof.
  induction n as [|n IH]; intros s acc t r Hn H.
  - destruct s; [discriminate H | simpl in Hn; lia].
  - destruct s as [|c rest]; [discriminate H|].
    simpl in Hn. cbn [parse_chars] in H.
    destruct (c =? 34)%N.
    { injection H as _ <-. simpl. lia. }
    destruct (c =? 92)%N.
    + destruct rest as [|e rest1]; [discriminate H|].
      destruct (e =? 117)%N.
      * destruct rest1 as [|h1 [|h2 [|h3 [|h4 rest2]]]]; try discriminate H.
        destruct (hex_digit h1), (hex_digit h2), (hex_digit h3), (hex_digit h4);
          try discriminate H.
        apply IH in H; simpl in *; lia.
      * destruct (simple_escape e); [|discriminate H].
        apply IH in H; simpl in *; lia.
    + destruct (c <? 32)%N; [discriminate H|].
      apply IH in H; simpl in *; lia.
Qed.

Lemma scan_digits_length (s ds rest : jsstring) :
  scan_digits s = (ds, rest) -> List.length rest <= List.length s.
Proof.
  revert ds rest. induction s as [|c s IH]; simpl; intros ds rest H.
  - injection H as _ <-. trivial.
  - destruct (is_digit c).
    + destruct (scan_digits s) as [ds' r'] eqn:E. injection H as _ <-.
      specialize (IH _ _ eq_refl). lia.
    + injection H as _ <-. trivial.
Qed.

Lemma scan_int_length (s tok rest : jsstring) :
  scan_int s = Some (tok, rest) -> List.length rest <= List.length s.
Proof.
  unfold scan_int. destruct s as [|c s]; [discriminate|].
  destruct (c =? 48)%N.
  - intros [= _ <-]. simpl. lia.
  - destruct (is_digit c); [|discriminate].
    intros [= H]. exact (scan_digits_length (c :: s) tok rest H).
Qed.

Lemma scan_frac_length (s tok rest : jsstring) :
  scan_frac s = Some (tok, rest) -> List.length rest <= List.length s.
Proof.
  unfold scan_frac. destruct (expect 46 s) as [r|] eqn:E.
  - apply expect_length in E.
    destruct (scan_digits r) as [ds r'] eqn:D. apply scan_digits_length in D.
    destruct ds; [discriminate|]. intros [= _ <-]. lia.
  - intros [= _ <-]. trivial.
Qed.

Lemma scan_exp_sign_length (s sign rest : jsstring) :
  scan_exp_sign s = (sign, rest) -> List.length rest <= List.length s.
Proof.
  unfold scan_exp_sign. destruct s as [|x r]; [intros [= _ <-]; trivial|].
  destruct ((x =? 43) || (x =? 45))%N; intros [= _ <-]; simpl; lia.
Qed.

Lemma scan_exp_length (s tok rest : jsstring) :
  scan_exp s = Some (tok, rest) -> List.length rest <= List.length s.
Proof.
  unfold scan_exp. destruct s as [|e r]; [intros [= _ <-]; trivial|].
  destruct ((e =? 101) || (e =? 69))%N; [|intros [= _ <-]; trivial].
  destruct (scan_exp_sign r) as [esign r1] eqn:E.
  apply scan_exp_sign_length in E.
  destruct (scan_digits r1) as [ds r2] eqn:D. apply scan_digits_length in D.
  destruct ds; [discriminate|]. intros [= _ <-]. simpl. lia.
Qed.

Lemma scan_number_length (s tok rest : jsstring) :
  scan_number s = Some (tok, rest) -> List.length rest <= List.length s.
Proof.
  unfold scan_number, scan_sign.
  assert (Hsign : forall r, expect 45 s = Some r -> List.length r <= List.length s).
  { intros r E. apply expect_length in E. lia. }
  destruct (expect 45 s) as [r|];
    [specialize (Hsign r eq_refl) | clear Hsign].
  all: match goal with
       | |- context [scan_int ?x] => destruct (scan_int x) as [[int s2]|] eqn:I
       end; [apply scan_int_length in I | discriminate].
  all: destruct (scan_frac s2) as [[frac s3]|] eqn:F;
    [apply scan_frac_length in F | discriminate].
  all: destruct (scan_exp s3) as [[ex s4]|] eqn:X;
    [apply scan_exp_length in X | discriminate].
  all: intros [= _ <-]; lia.
Qed.

Lemma literal_length (word : string) (v v' : JSValue) (s rest : jsstring) :
  literal word v s = POk v' rest -> List.length rest <= List.length s.
Proof.
  unfold literal. destruct (_ =? _); [|discriminate].
  intros [= _ <-]. rewrite length_skipn. lia.
Qed.

Definition consumes (p : jsstring -> Parsed JSValue) : Prop :=
  forall s v rest, p s = POk v rest -> List.length rest <= List.length s.

Lemma parse_consumes (fuel : nat) :
  consumes (parse_value fuel)
  /\ (forall acc, consumes (fun s => parse_elements fuel s acc))
  /\ (forall acc, consumes (fun s => parse_members fuel s acc)).
Proof.
  unfold consumes.
  induction fuel as [|f (IHv & IHe & IHm)];
    [repeat split; intros; discriminate|].
  split; [|split].
  - intros s v rest. cbn [parse_value].
    pose proof (skip_ws_length s) as Hs.
    destruct (skip_ws s) as [|c r]; [discriminate|]. simpl in Hs.
    destruct (c =? 123)%N.
    { pose proof (skip_ws_length r) as Hr.
      destruct (expect 125 (skip_ws r)) as [r'|] eqn:E.
      - apply expect_length in E. intros [= _ <-]. lia.
      - intros H. apply IHm in H. lia. }
    destruct (c =? 91)%N.
    { pose proof (skip_ws_length r) as Hr.
      destruct (expect 93 (skip_ws r)) as [r'|] eqn:E.
      - apply expect_length in E. intros [= _ <-]. lia.
      - intros H. apply IHe in H. lia. }
    destruct (c =? 34)%N.
    { destruct (parse_chars r []) as [[t r']|] eqn:E; [|discriminate].
      apply (parse_chars_length (List.length r)) in E; trivial.
      intros [= _ <-]. lia. }
    destruct (c =? 116)%N.
    { intros H. apply literal_length in H. simpl in H. lia. }
    destruct (c =? 102)%N.
    { intros H. apply literal_length in H. simpl in H. lia. }
    destruct (c =? 110)%N.
    { intros H. apply literal_length in H. simpl in H. lia. }
    destruct (scan_number (c :: r)) as [[tok r']|] eqn:E; [|discriminate].
    apply scan_number_length in E. simpl in E. intros [= _ <-]. lia.
  - intros acc s v rest. cbn [parse_elements].
    destruct (parse_value f s) as [w r| |] eqn:V; try discriminate.
    apply IHv in V. pose proof (skip_ws_length r) as Hr.
    destruct (skip_ws r) as [|c r']; [discriminate|]. simpl in Hr.
    destruct (c =? 44)%N.
    { intros H. apply IHe in H. lia. }
    destruct (c =? 93)%N; [|discriminate]. intros [= _ <-]. lia.
  - intros acc s v rest. cbn [parse_members].
    pose proof (skip_ws_length s) as Hs.
    destruct (expect 34 (skip_ws s)) as [r|] eqn:E; [|discriminate].
    apply expect_length in E.
    destruct (parse_chars r []) as [[key r1]|] eqn:K; [|discriminate].
    apply (parse_chars_length (List.length r)) in K; trivial.
    pose proof (skip_ws_length r1) as Hr1.
    destruct (expect 58 (skip_ws r1)) as [r2|] eqn:E2; [|discriminate].
    apply expect_length in E2.
    destruct (parse_value f r2) as [w r3| |] eqn:V; try discriminate.
    apply IHv in V. pose proof (skip_ws_length r3) as Hr3.
    destruct (skip_ws r3) as [|c r4]; [discriminate|]. simpl in Hr3.
    destruct (c =? 44)%N.
    { intros H. apply IHm in H. lia. }
    destruct (c =? 125)%N; [|discriminate]. intros [= _ <-]. lia.
Qed.

Lemma parse_fuel_suffices (fuel : nat) :
  (forall s, 2 * List.length s + 1 <= fuel -> parse_value fuel s <> PFuel)
  /\ (forall s acc, 2 * List.length s + 2 <= fuel -> parse_elements fuel s acc <> PFuel)
  /\ (forall s acc, 2 * List.length s + 2 <= fuel -> parse_members fuel s acc <> PFuel).
Proof.
  induction fuel as [|f (IHv & IHe & IHm)];
    [repeat split; intros; lia|].
  destruct (parse_consumes f) as (Cv & _ & _). unfold consumes in Cv.
  split; [|split].
  - intros s Hf. cbn [parse_value].
    pose proof (skip_ws_length s) as Hs.
    destruct (skip_ws s) as [|c r]; [discriminate|]. simpl in Hs.
    destruct (c =? 123)%N.
    { destruct (expect 125 (skip_ws r)); [discriminate|]. apply IHm. lia. }
    destruct (c =? 91)%N.
    { destruct (expect 93 (skip_ws r)); [discriminate|]. apply IHe. lia. }
    destruct (c =? 34)%N.
    { destruct (parse_chars r []) as [[t r']|]; discriminate. }
    unfold literal.
    repeat match goal with
           | |- context [if ?b then _ else _] => destruct b
           end; try discriminate.
    destruct (scan_number (c :: r)) as [[tok r']|]; discriminate.
  - intros s acc Hf. cbn [parse_elements].
    destruct (parse_value f s) as [w r| |] eqn:V; try discriminate.
    + apply Cv in V. pose proof (skip_ws_length r) as Hr.
      destruct (skip_ws r) as [|c r']; [discriminate|]. simpl in Hr.
      destruct (c =? 44)%N; [apply IHe; lia|].
      destruct (c =? 93)%N; discriminate.
    + exfalso. revert V. apply IHv. lia.
  - intros s acc Hf. cbn [parse_members].
    pose proof (skip_ws_length s) as Hs.
    destruct (expect 34 (skip_ws s)) as [r|] eqn:E; [|discriminate].
    apply expect_length in E.
    destruct (parse_chars r []) as [[key r1]|] eqn:K; [|discriminate].
    apply (parse_chars_length (List.length r)) in K; trivial.
    pose proof (skip_ws_length r1) as Hr1.
    destruct (expect 58 (skip_ws r1)) as [r2|] eqn:E2; [|discriminate].
    apply expect_length in E2.
    destruct (parse_value f r2) as [w r3| |] eqn:V; try discriminate.
    + apply Cv in V. pose proof (skip_ws_length r3) as Hr3.
      destruct (skip_ws r3) as [|c r4]; [discriminate|]. simpl in Hr3.
      destruct (c =? 44)%N; [apply IHm; lia|].
      destruct (c =? 125)%N; discriminate.
    + exfalso. revert V. apply IHv. lia.
Qed.

(** [JSON.parse] answers every text: the parser ends with a value and the
    rest of the text, or with a syntax error, never for want of fuel. *)
Lemma parse_value_fuel (s : jsstring) : parse_value (parse_fuel s) s <> PFuel.
Proof.
  apply parse_fuel_suffices. unfold parse_fuel. lia.
Qed.

(** *** What a responder does with its callbacks

    Every responder of the file ends in one of three ways: a tail call of
    one callback, a plain return, or an exception. *)

Inductive Behaviour :=
| Calls (cb : CallbackName) (args : list JSValue)
| ReturnsUndefined
| Raises (e : JSError).

Definition behave (b : Behaviour) (success fail : Callback) : M JSValue :=
  match b with
  | Calls OnSuccess args => success args
  | Calls OnFailure args => fail args
  | ReturnsUndefined => ret VUndefined
  | Raises e => lift (Throw e)
  end.

Ltac case_url :=
  repeat match goal with
  | |- context [if ?u =? ?c then _ else _] => destruct (u =? c) eqn:?
  end.

Ltac pick_behaviour :=
  first
    [ eexists (Calls OnSuccess _); split; [intros; reflexivity | ]
    | eexists (Calls OnFailure _); split; [intros; reflexivity | ]
    | exists ReturnsUndefined; split; [intros; reflexivity | ] ].

Lemma successPath_behaves (url : jsstring) (data : JSValue) :
  exists b,
    (forall success fail, successPath url data success fail = behave b success fail)
    /\ (b = ReturnsUndefined \/ exists args, b = Calls OnSuccess args).
Proof.
  unfold successPath. case_url; pick_behaviour; eauto.
Qed.

Lemma responder_behaves (s : Scenario) (url : jsstring) (data : JSValue) :
  exists b,
    (forall success fail st,
        testClusterSetup s url data success fail st = behave b success fail st)
    /\ (forall e, b = Raises e ->
          url = url_cluster_setup
          /\ (s = ClusterSetupForceFail \/ s = ClusterSetupForce)
          /\ force_flags_length_lt_1 data = Throw e).
Proof.
  destruct s; simpl testClusterSetup;
    unfold checkAuth500, checkAuthFails, checkAuthNodesNotAuth, sendKnownHosts403,
      sendKnownHostsFail, sendKnownHostsUnsupported, sendKnownHostsUnknownFail,
      clusterSetup403, clusterSetup500, clusterSetupUnforcible, clusterSetupException,
      clusterSetupForceFail, clusterSetupForceFailForcible, clusterSetupForce,
      rememberFail, successPath;
    case_url;
    try (pick_behaviour; intros; discriminate).
  all: match goal with
       | H : (?u =? url_cluster_setup) = true |- _ => apply jsstring_eqb_eq in H
       end.
  all: destruct (force_flags_length_lt_1 data) as [b|e] eqn:G.
  all: try destruct b.
  all: try (pick_behaviour; intros; discriminate).
  all: exists (Raises e); split; [intros; reflexivity | ].
  all: intros e' [= <-]; auto.
Qed.

(** *** successPath *)

(** C2, as amended: [successPath] answers the four [/manage/...] endpoints
    through the success callback, whatever the payload, and never calls the
    failure callback; it has no case for the overview URL, where it calls
    neither callback and returns [undefined]. *)
Theorem successPath_endpoints (data : JSValue) (success fail : Callback) :
  successPath url_check_auth data success fail
    = success [JSON_stringify (VObj [(str "dave8", VStr (str "Online"));
                                     (str "kryten8", VStr (str "Online"));
                                     (str "holly8", VStr (str "Online"))])]
  /\ successPath url_send_known_hosts data success fail = success [VStr (str "success")]
  /\ successPath url_cluster_setup data success fail
       = success [JSON_stringify dev_fixture_success]
  /\ successPath url_remember_cluster data success fail = success []
  /\ successPath url_clusters_overview data success fail = ret VUndefined.
Proof.
  repeat split; reflexivity.
Qed.

(** *** checkAuthFails *)

(** C8: on the auth-check URL [checkAuthFails] calls the failure callback
    with no argument; on every other URL it calls neither callback and
    returns [undefined]. *)
Theorem checkAuthFails_behaviour (data : JSValue) (success fail : Callback) :
  checkAuthFails url_check_auth data success fail = fail []
  /\ forall url, url <> url_check_auth ->
       checkAuthFails url data success fail = ret VUndefined.
Proof.
  split.
  - reflexivity.
  - intros url Hurl. unfold checkAuthFails.
    now rewrite (jsstring_eqb_neq _ _ Hurl).
Qed.

(** *** Delegation *)

Definition completes_normally (cb : Callback) : Prop :=
  forall args st, exists v st', cb args st = (Normal v, st').

(** C4: a composed scenario, on a URL that is not the one of its own case,
    is [successPath] on the same URL and payload, and does not throw (the
    success callback returning normally). *)
Theorem delegation_is_successPath (s : Scenario) (own url : jsstring)
    (data : JSValue) (success fail : Callback) :
  delegating_case s = Some own ->
  url <> own ->
  testClusterSetup s url data success fail = successPath url data success fail
  /\ (completes_normally success ->
      forall st, exists v st',
        testClusterSetup s url data success fail st = (Normal v, st')).
Proof.
  intros Hown Hurl.
  assert (Heq : testClusterSetup s url data success fail
                = successPath url data success fail).
  { destruct s; simpl in Hown; try discriminate; injection Hown as <-;
      simpl testClusterSetup;
      unfold sendKnownHosts403, sendKnownHostsFail, sendKnownHostsUnsupported,
        sendKnownHostsUnknownFail, clusterSetup403, clusterSetup500,
        clusterSetupUnforcible, clusterSetupException, clusterSetupForceFail,
        clusterSetupForceFailForcible, clusterSetupForce, rememberFail;
      now rewrite (jsstring_eqb_neq _ _ Hurl). }
  split; [exact Heq|].
  intros Hok st. rewrite Heq.
  destruct (successPath_behaves url data) as (b & Hb & [-> | [args ->]]);
    rewrite Hb; simpl.
  - now exists VUndefined, st.
  - apply Hok.
Qed.

(** *** One callback, once *)

Definition answer_of (cb : CallbackName)
    (on_success on_failure : list JSValue -> Completion JSValue)
    : list JSValue -> Completion JSValue :=
  match cb with
  | OnSuccess => on_success
  | OnFailure => on_failure
  end.

Lemma request_behaves (s : Scenario) (url : jsstring) (data : JSValue)
    (on_success on_failure : list JSValue -> Completion JSValue) (b : Behaviour)
    (st : Store) :
  (forall success fail st,
      testClusterSetup s url data success fail st = behave b success fail st) ->
  request s url data on_success on_failure st =
    match b with
    | Calls cb args =>
        (answer_of cb on_success on_failure args, record st [Invoked cb args])
    | ReturnsUndefined => (Normal VUndefined, st)
    | Raises e => (Throw e, st)
    end.
Proof.
  intros Hb. unfold request. rewrite Hb.
  destruct b as [[|] args| |e]; reflexivity.
Qed.

(** C3, as amended: an invocation of a scenario function, on any URL and
    payload, calls exactly one of the two callbacks, once, and returns what
    it returned; or calls neither and returns [undefined]; or, for the two
    responders that decode the payload, on the cluster-setup URL, calls
    neither and throws the exception of that decoding. *)
Theorem one_callback_once (s : Scenario) (url : jsstring) (data : JSValue)
    (on_success on_failure : list JSValue -> Completion JSValue) (st : Store) :
  let r := request s url data on_success on_failure st in
  (exists cb args,
      r = (answer_of cb on_success on_failure args, record st [Invoked cb args]))
  \/ r = (Normal VUndefined, st)
  \/ (exists e,
        r = (Throw e, st)
        /\ force_flags_length_lt_1 data = Throw e
        /\ url = url_cluster_setup
        /\ (s = ClusterSetupForceFail \/ s = ClusterSetupForce)).
Proof.
  intros r. subst r.
  destruct (responder_behaves s url data) as (b & Hb & Hraise).
  rewrite (@request_behaves _ _ _ _ _ _ _ Hb).
  destruct b as [cb args| |e].
  - left. now exists cb, args.
  - right. now left.
  - right. right. exists e. destruct (Hraise e eq_refl) as (Hu & Hs & Hg). auto.
Qed.

(** *** Determinism *)

Lemma request_records (s : Scenario) (url : jsstring) (data : JSValue)
    (on_success on_failure : list JSValue -> Completion JSValue) :
  exists (c : Completion JSValue) (evs : list Event),
    forall st, request s url data on_success on_failure st = (c, record st evs).
Proof.
  destruct (responder_behaves s url data) as (b & Hb & _).
  destruct b as [cb args| |e].
  - exists (answer_of cb on_success on_failure args), [Invoked cb args].
    intros st. now rewrite (@request_behaves _ _ _ _ _ _ _ Hb).
  - exists (Normal VUndefined), []. intros st.
    now rewrite (@request_behaves _ _ _ _ _ _ _ Hb), record_nil.
  - exists (Throw e), []. intros st.
    now rewrite (@request_behaves _ _ _ _ _ _ _ Hb), record_nil.
Qed.

(** C10: the outcome of a scenario function and the callback call it makes
    are determined by the scenario, the URL and the payload (and by what the
    callbacks answer): they are the same from every state of the harness,
    which the invocation leaves as it was, the recorded call apart. *)
Theorem responders_are_pure (s : Scenario) (url : jsstring) (data : JSValue)
    (on_success on_failure : list JSValue -> Completion JSValue) :
  exists (c : Completion JSValue) (evs : list Event),
    (forall st, request s url data on_success on_failure st = (c, record st evs))
    /\ (forall st1 st2,
          fst (request s url data on_success on_failure st1)
            = fst (request s url data on_success on_failure st2)
          /\ new_effects st1 (snd (request s url data on_success on_failure st1))
            = new_effects st2 (snd (request s url data on_success on_failure st2))).
Proof.
  destruct (request_records s url data on_success on_failure) as (c & evs & H).
  exists c, evs.
  split; [exact H|].
  intros st1 st2. rewrite !H. simpl. now rewrite !new_effects_record.
Qed.

(** *** The trust-distribution endpoint *)

Definition trust_bodies : list jsstring :=
  [str "success"; str "error"; str "not_supported"; str "unknown"].

Ltac pick_body word :=
  exists (Calls OnSuccess [VStr word]);
  split; [intros; reflexivity | right; right; eexists; split; [reflexivity | simpl; auto]].

Lemma send_known_hosts_behaves (s : Scenario) (data : JSValue) :
  exists b,
    (forall success fail st,
        testClusterSetup s url_send_known_hosts data success fail st
          = behave b success fail st)
    /\ (b = ReturnsUndefined
        \/ (exists args, b = Calls OnFailure args)
        \/ (exists body, b = Calls OnSuccess [VStr body] /\ In body trust_bodies)).
Proof.
  destruct s;
    first
      [ pick_body (str "success") | pick_body (str "error")
      | pick_body (str "not_supported") | pick_body (str "unknown")
      | eexists (Calls OnFailure _); split; [intros; reflexivity | right; left; eauto]
      | exists ReturnsUndefined; split; [intros; reflexivity | now left] ].
Qed.

(** C7: whenever a scenario function answers the trust-distribution
    endpoint through the success callback, the body it passes is one of the
    strings "success", "error", "not_supported", "unknown". *)
Theorem send_known_hosts_bodies (s : Scenario) (data : JSValue)
    (on_success on_failure : list JSValue -> Completion JSValue) (st : Store)
    (args : list JSValue) :
  In (Invoked OnSuccess args)
     (new_effects st (snd (request s url_send_known_hosts data on_success on_failure st))) ->
  exists body, args = [VStr body] /\ In body trust_bodies.
Proof.
  destruct (send_known_hosts_behaves s data) as (b & Hb & Hshape).
  rewrite (@request_behaves _ _ _ _ _ _ _ Hb).
  destruct Hshape as [-> | [[args' ->] | (body & -> & Hin)]]; simpl snd.
  - rewrite <- (record_nil st) at 2. rewrite new_effects_record. intros [].
  - rewrite new_effects_record. intros [H | []]. discriminate H.
  - rewrite new_effects_record. intros [H | []].
    injection H as <-. now exists body.
Qed.

(** *** The force-flag responders *)

(** [JSON.parse(data.setup_data)] *)
Definition decoded_setup_data (data : JSValue) : Completion JSValue :=
  let? text := GetV data setup_data in JSON_parse text.

(** The payload's [setup_data] decodes to an object whose [force_flags] is
    the array [flags]. *)
Definition force_flags_of (data : JSValue) (flags : list JSValue) : Prop :=
  exists props,
    decoded_setup_data data = Normal (VObj props)
    /\ own_property props (str "force_flags") = VArr flags.

Definition is_nil (flags : list JSValue) : bool :=
  match flags with
  | [] => true
  | _ :: _ => false
  end.

Lemma force_flags_length_decoded (data : JSValue) :
  force_flags_length_lt_1 data =
    let? decoded := decoded_setup_data data in
    let? flags := GetV decoded force_flags in
    let? len := GetV flags length_ in
    less_than_1 len.
Proof.
  unfold force_flags_length_lt_1, decoded_setup_data.
  destruct (GetV data setup_data); reflexivity.
Qed.

Lemma less_than_1_length (n : nat) :
  less_than_1 (VLength n) = Normal (Nat.eqb n 0).
Proof.
  unfold less_than_1, VLength; simpl. rewrite lessThan_one.
  f_equal. destruct n; simpl; trivial.
  destruct (N.ltb_spec (N.pos (Pos.of_succ_nat n)) 1); trivial; lia.
Qed.

Lemma force_flags_length_array (data : JSValue) (flags : list JSValue) :
  force_flags_of data flags ->
  force_flags_length_lt_1 data = Normal (is_nil flags).
Proof.
  intros (props & Hdec & Hflags).
  rewrite force_flags_length_decoded, Hdec. simpl cbind.
  change (prop_key force_flags) with (str "force_flags"). rewrite Hflags.
  simpl cbind. rewrite less_than_1_length. now destruct flags.
Qed.

Lemma forceFail_of_guard (data : JSValue) (b : bool) (success fail : Callback) :
  force_flags_length_lt_1 data = Normal b ->
  clusterSetupForceFail url_cluster_setup data success fail
    = success [JSON_stringify (dev_fixture_libError b)].
Proof.
  intros G. unfold clusterSetupForceFail.
  rewrite jsstring_eqb_refl, G. reflexivity.
Qed.

Lemma force_of_guard (data : JSValue) (b : bool) (success fail : Callback) :
  force_flags_length_lt_1 data = Normal b ->
  clusterSetupForce url_cluster_setup data success fail
    = if b then success [JSON_stringify (dev_fixture_libError true)]
      else successPath url_cluster_setup data success fail.
Proof.
  intros G. unfold clusterSetupForce.
  rewrite jsstring_eqb_refl, G. destruct b; reflexivity.
Qed.

Lemma raise_of_guard (data : JSValue) (e : JSError) (success fail : Callback)
    (st : Store) :
  force_flags_length_lt_1 data = Throw e ->
  clusterSetupForceFail url_cluster_setup data success fail st = (Throw e, st)
  /\ clusterSetupForce url_cluster_setup data success fail st = (Throw e, st).
Proof.
  intros G. unfold clusterSetupForceFail, clusterSetupForce.
  rewrite jsstring_eqb_refl. unfold bind, lift. now rewrite G.
Qed.

(** C1, as amended: on the cluster-setup URL, when the payload's
    [setup_data] decodes to an object whose [force_flags] array is empty,
    [clusterSetupForceFail] calls the success callback with the forcible
    error fixture ([dev.fixture.libError(true)]), exactly as
    [clusterSetupForceFailForcible] does; when the array is not empty, it
    calls it with the non-forcible one ([dev.fixture.libError(false)]). *)
Theorem forceFail_by_force_flags (data : JSValue) (flags : list JSValue)
    (success fail : Callback) :
  force_flags_of data flags ->
  (flags = [] ->
     clusterSetupForceFail url_cluster_setup data success fail
       = success [JSON_stringify (dev_fixture_libError true)]
     /\ clusterSetupForceFail url_cluster_setup data success fail
       = clusterSetupForceFailForcible url_cluster_setup data success fail)
  /\ (flags <> [] ->
     clusterSetupForceFail url_cluster_setup data success fail
       = success [JSON_stringify (dev_fixture_libError false)]).
Proof.
  intros Hflags. apply force_flags_length_array in Hflags.
  rewrite (forceFail_of_guard _ _ _ _ Hflags).
  split.
  - intros ->. split; reflexivity.
  - intros Hne. destruct flags; [contradiction | reflexivity].
Qed.

(** C5: on the cluster-setup URL, [clusterSetupForce] called with a
    payload whose [force_flags] is empty calls the success callback with
    the forcible error fixture; called then with a payload whose
    [force_flags] is not empty (["--force"]), it is [successPath], which
    calls the success callback with the success fixture. *)
Theorem force_fails_then_succeeds (data1 data2 : JSValue) (flags2 : list JSValue)
    (on_success on_failure : list JSValue -> Completion JSValue) (st : Store) :
  force_flags_of data1 [] ->
  force_flags_of data2 flags2 ->
  flags2 <> [] ->
  let first := request ClusterSetupForce url_cluster_setup data1 on_success on_failure st in
  let second :=
    request ClusterSetupForce url_cluster_setup data2 on_success on_failure (snd first) in
  first = (on_success [JSON_stringify (dev_fixture_libError true)],
           record st [Invoked OnSuccess [JSON_stringify (dev_fixture_libError true)]])
  /\ second = request SuccessPath url_cluster_setup data2 on_success on_failure (snd first)
  /\ second = (on_success [JSON_stringify dev_fixture_success],
              record st [Invoked OnSuccess [JSON_stringify (dev_fixture_libError true)];
                         Invoked OnSuccess [JSON_stringify dev_fixture_success]]).
Proof.
  intros H1 H2 Hne first second. subst first second.
  apply force_flags_length_array in H1, H2.
  destruct flags2; [contradiction|]. simpl in H1, H2.
  unfold request. simpl testClusterSetup.
  rewrite (force_of_guard _ _ _ _ H1), (force_of_guard _ _ _ _ H2).
  rewrite spy_run. simpl snd.
  repeat split.
  unfold successPath. simpl. rewrite spy_run.
  unfold record; simpl. now rewrite <- app_assoc.
Qed.

Definition raises_on_cluster_setup (data : JSValue) (e : JSError) : Prop :=
  forall success fail st,
    clusterSetupForceFail url_cluster_setup data success fail st = (Throw e, st)
    /\ clusterSetupForce url_cluster_setup data success fail st = (Throw e, st).

(** C9, as amended.  On the cluster-setup URL:
    - when [setup_data] decodes to an object whose [force_flags] is an
      array, neither force-flag responder throws: each ends in a call of the
      success callback;
    - when the payload is [undefined] or [null], or [setup_data] is absent
      or is not JSON text, or what it decodes to is [null], or has no
      [force_flags], or has [null] there, both throw and call no callback;
    - when [force_flags] is there but has no [length] (a boolean, a
      number), neither throws: the comparison is false. *)
Theorem force_flag_responders_partial (data : JSValue) :
  (forall flags success fail,
      force_flags_of data flags ->
      clusterSetupForceFail url_cluster_setup data success fail
        = success [JSON_stringify (dev_fixture_libError (is_nil flags))]
      /\ clusterSetupForce url_cluster_setup data success fail
        = if is_nil flags then success [JSON_stringify (dev_fixture_libError true)]
          else success [JSON_stringify dev_fixture_success])
  /\ (data = VUndefined \/ data = VNull
      \/ GetV data setup_data = Normal VUndefined
      \/ (exists text e, GetV data setup_data = Normal text /\ JSON_parse text = Throw e)
      \/ (exists decoded,
            decoded_setup_data data = Normal decoded
            /\ (decoded = VNull
                \/ GetV decoded force_flags = Normal VUndefined
                \/ GetV decoded force_flags = Normal VNull)) ->
      exists e, raises_on_cluster_setup data e)
  /\ (forall decoded flags success fail,
        decoded_setup_data data = Normal decoded ->
        GetV decoded force_flags = Normal flags ->
        (exists b, flags = VBool b) \/ (exists n, flags = VNum n) ->
        clusterSetupForceFail url_cluster_setup data success fail
          = success [JSON_stringify (dev_fixture_libError false)]
        /\ clusterSetupForce url_cluster_setup data success fail
          = successPath url_cluster_setup data success fail).
Proof.
  split; [|split].
  - intros flags success fail Hflags.
    apply force_flags_length_array in Hflags.
    rewrite (forceFail_of_guard _ _ _ _ Hflags), (force_of_guard _ _ _ _ Hflags).
    split; [reflexivity|]. destruct (is_nil flags); reflexivity.
  - intros H.
    assert (G : exists e, force_flags_length_lt_1 data = Throw e).
    { rewrite force_flags_length_decoded.
      destruct H as [-> | [-> | [H | [(text & e & H1 & H2) | (d & Hd & H)]]]].
      - now exists TypeError.
      - now exists TypeError.
      - exists SyntaxError. unfold decoded_setup_data. now rewrite H.
      - exists e. unfold decoded_setup_data. rewrite H1. simpl cbind. now rewrite H2.
      - rewrite Hd. simpl cbind.
        destruct H as [-> | [H | H]]; [now exists TypeError | |];
          rewrite H; now exists TypeError. }
    destruct G as (e & G). exists e.
    intros success fail st. now apply raise_of_guard.
  - intros decoded flags success fail Hd Hf Hshape.
    assert (G : force_flags_length_lt_1 data = Normal false).
    { rewrite force_flags_length_decoded, Hd. simpl cbind. rewrite Hf. simpl cbind.
      destruct Hshape as [[b ->] | [n ->]]; simpl cbind;
        unfold less_than_1; simpl; now rewrite lessThan_NaN. }
    rewrite (forceFail_of_guard _ _ _ _ G), (force_of_guard _ _ _ _ G).
    split; reflexivity.
Qed.

(** *** One-shot initialization *)

Definition overview_events : list Event :=
  [ConsoleGroup (str "Wrapping ajax_wrapper"); ConsoleLog url_clusters_overview;
   ConsoleGroupEnd].

Definition prefill_events : list Event :=
  [DialogCreate;
   SetVal clustername_input (str "starbug8");
   SetVal (node_input (str "node-1")) (str "dave8");
   SetVal (node_input (str "node-2")) (str "kryten8");
   SetVal (node_input (str "node-3")) (str "holly8")].

Lemma overview_first (st : Store) :
  cluster_overview_run st = VUndefined ->
  overview_override url_clusters_overview st
    = (Normal mock_clusters_overview,
       record (mkStore (wasRun st) (VBool true) (effects st)) overview_events).
Proof.
  intros H. unfold overview_override.
  change (str "/clusters_overview") with url_clusters_overview.
  rewrite jsstring_eqb_refl.
  unfold bind, get_cluster_overview_run. rewrite H.
  simpl. unfold ret. now rewrite !record_record.
Qed.

Lemma overview_later (url : jsstring) (st : Store) :
  cluster_overview_run st <> VUndefined ->
  overview_override url st = (Normal VUndefined, st).
Proof.
  intros H. unfold overview_override.
  destruct (url =? str "/clusters_overview"); [|reflexivity].
  unfold bind, get_cluster_overview_run.
  destruct (cluster_overview_run st); try reflexivity. contradiction.
Qed.

Lemma overview_other (url : jsstring) (st : Store) :
  url <> url_clusters_overview ->
  overview_override url st = (Normal VUndefined, st).
Proof.
  intros H. unfold overview_override.
  change (str "/clusters_overview") with url_clusters_overview.
  now rewrite (jsstring_eqb_neq _ _ H).
Qed.

Lemma prefill_first (st : Store) :
  wasRun st = false ->
  prefill st
    = (Normal VUndefined,
       record (mkStore true (cluster_overview_run st) (effects st)) prefill_events).
Proof.
  intros H. unfold prefill, bind, get_wasRun. rewrite H.
  simpl. unfold ret. now rewrite !record_record.
Qed.

Lemma prefill_later (st : Store) :
  wasRun st = true -> prefill st = (Normal VUndefined, st).
Proof.
  intros H. unfold prefill, bind, get_wasRun. now rewrite H.
Qed.

(** Once set, neither flag is cleared. *)
Lemma flags_stay (a : Action) (st : Store) :
  (cluster_overview_run st <> VUndefined ->
   cluster_overview_run (snd (perform a st)) <> VUndefined)
  /\ (wasRun st = true -> wasRun (snd (perform a st)) = true).
Proof.
  destruct a as [|url|s url data ons onf]; simpl perform.
  - destruct (wasRun st) eqn:W.
    + now rewrite prefill_later.
    + rewrite prefill_first by exact W. simpl. auto.
  - destruct st as [w f evs]. destruct f;
      try (rewrite overview_later by (simpl; discriminate); simpl; split; auto;
           discriminate).
    split; [simpl; contradiction|].
    unfold overview_override. destruct (url =? str "/clusters_overview"); simpl; auto.
  - destruct (request_records s url data ons onf) as (c & evs & H).
    rewrite H. simpl. auto.
Qed.

(** Each flag is written by one function only. *)
Lemma flags_untouched (a : Action) (st : Store) :
  (a <> Overview url_clusters_overview ->
   cluster_overview_run (snd (perform a st)) = cluster_overview_run st)
  /\ (a <> Prefill -> wasRun (snd (perform a st)) = wasRun st).
Proof.
  destruct a as [|url|s url data ons onf]; simpl perform.
  - split; [|contradiction]. intros _.
    destruct (wasRun st) eqn:W.
    + now rewrite prefill_later.
    + now rewrite prefill_first.
  - split.
    + intros Ha. rewrite overview_other; trivial. congruence.
    + intros _. destruct st as [w f evs].
      unfold overview_override. destruct (url =? str "/clusters_overview"); trivial.
      destruct f; reflexivity.
  - destruct (request_records s url data ons onf) as (c & evs & H).
    rewrite H. simpl. auto.
Qed.

Lemma flags_stay_all (acts : list Action) (st : Store) :
  (cluster_overview_run st <> VUndefined ->
   cluster_overview_run (perform_all acts st) <> VUndefined)
  /\ (wasRun st = true -> wasRun (perform_all acts st) = true).
Proof.
  revert st. induction acts as [|a acts IH]; intros st; simpl; auto.
  destruct (flags_stay a st) as [Hf Hw].
  destruct (IH (snd (perform a st))) as [IHf IHw]. auto.
Qed.

Lemma flags_untouched_all (acts : list Action) (st : Store) :
  ((forall a, In a acts -> a <> Overview url_clusters_overview) ->
   cluster_overview_run (perform_all acts st) = cluster_overview_run st)
  /\ ((forall a, In a acts -> a <> Prefill) ->
      wasRun (perform_all acts st) = wasRun st).
Proof.
  revert st. induction acts as [|a acts IH]; intros st; simpl; auto.
  destruct (flags_untouched a st) as [Hf Hw].
  destruct (IH (snd (perform a st))) as [IHf IHw].
  split; intros H.
  - rewrite IHf, Hf; auto.
  - rewrite IHw, Hw; auto.
Qed.

(** C6: from the state the file is loaded in, and whatever else the
    harness does with these functions, the first call of the overview
    function for "/clusters_overview" returns [mock.clusters_overview] and
    every later one returns [undefined]; the first call of [prefill] creates
    the dialog and fills its four inputs, and every later one finds
    [wasRun] set and does nothing. *)
Theorem one_shot_initialization (before between : list Action) :
  let st0 := perform_all before loaded in
  ((forall a, In a before -> a <> Overview url_clusters_overview) ->
   let first := overview_override url_clusters_overview st0 in
   let st1 := perform_all between (snd first) in
   fst first = Normal mock_clusters_overview
   /\ overview_override url_clusters_overview st1 = (Normal VUndefined, st1))
  /\ ((forall a, In a before -> a <> Prefill) ->
      let first := prefill st0 in
      let st1 := perform_all between (snd first) in
      first = (Normal VUndefined,
               record (mkStore true (cluster_overview_run st0) (effects st0))
                      prefill_events)
      /\ wasRun st1 = true
      /\ prefill st1 = (Normal VUndefined, st1)).
Proof.
  intros st0. split; intros Hfirst first st1; subst first st1.
  - assert (H0 : cluster_overview_run st0 = VUndefined).
    { subst st0. now rewrite (proj1 (flags_untouched_all before loaded) Hfirst). }
    rewrite (overview_first _ H0). simpl fst. simpl snd. split; trivial.
    apply overview_later. apply flags_stay_all. simpl. discriminate.
  - assert (H0 : wasRun st0 = false).
    { subst st0. now rewrite (proj2 (flags_untouched_all before loaded) Hfirst). }
    rewrite (prefill_first _ H0). simpl snd. split; trivial.
    assert (H1 : wasRun (perform_all between
              (record (mkStore true (cluster_overview_run st0) (effects st0))
                      prefill_events)) = true).
    { apply flags_stay_all. reflexivity. }
    split; trivial. now apply prefill_later.
Qed.

(** ** Further properties of the responders *)

(** *** URLs no responder knows *)

Definition manage_urls : list jsstring :=
  [url_check_auth; url_send_known_hosts; url_cluster_setup; url_remember_cluster].

Lemma not_manage_url (url : jsstring) :
  ~ In url manage_urls ->
  (url =? url_check_auth) = false /\ (url =? url_send_known_hosts) = false
  /\ (url =? url_cluster_setup) = false /\ (url =? url_remember_cluster) = false.
Proof.
  intros H. repeat split; apply jsstring_eqb_neq; intros ->; apply H; simpl; auto.
Qed.

Ltac unfold_responders :=
  unfold checkAuth500, checkAuthFails, checkAuthNodesNotAuth, sendKnownHosts403,
    sendKnownHostsFail, sendKnownHostsUnsupported, sendKnownHostsUnknownFail,
    clusterSetup403, clusterSetup500, clusterSetupUnforcible, clusterSetupException,
    clusterSetupForceFail, clusterSetupForceFailForcible, clusterSetupForce,
    rememberFail, successPath.

(** X1: on a URL that is none of the four [/manage/...] endpoints, every
    scenario function, composed or not, calls neither callback and returns
    [undefined], whatever the payload: the match is on the whole URL, and
    [successPath], where the composed ones end, has no [default]. *)
Theorem unknown_url_is_ignored (s : Scenario) (url : jsstring) (data : JSValue)
    (success fail : Callback) :
  ~ In url manage_urls ->
  testClusterSetup s url data success fail = ret VUndefined.
Proof.
  intros H. destruct (not_manage_url url H) as (H1 & H2 & H3 & H4).
  destruct s; simpl testClusterSetup; unfold_responders;
    rewrite ?H1, ?H2, ?H3, ?H4; reflexivity.
Qed.

(** *** What of the payload is read *)

(** The requests a responder decodes the payload for. *)
Definition decodes_payload (s : Scenario) (url : jsstring) : bool :=
  match s with
  | ClusterSetupForceFail | ClusterSetupForce => url =? url_cluster_setup
  | _ => false
  end.

(** X2: the payload is read by [clusterSetupForceFail] and
    [clusterSetupForce] on the cluster-setup URL only; any other scenario,
    and these two on any other URL, do the same for every payload. *)
Theorem payload_is_ignored (s : Scenario) (url : jsstring) (data1 data2 : JSValue)
    (success fail : Callback) :
  decodes_payload s url = false ->
  testClusterSetup s url data1 success fail = testClusterSetup s url data2 success fail.
Proof.
  intros H.
  destruct s; simpl in H; simpl testClusterSetup; unfold_responders;
    rewrite ?H; try discriminate H; reflexivity.
Qed.

(** X3: of the payload, the force-flag responders read [setup_data] and
    nothing else: two payloads with the same [setup_data] (or both without
    properties at all) are answered alike by every scenario on every URL. *)
Theorem only_setup_data_is_read (s : Scenario) (url : jsstring) (data1 data2 : JSValue)
    (success fail : Callback) :
  GetV data1 setup_data = GetV data2 setup_data ->
  testClusterSetup s url data1 success fail = testClusterSetup s url data2 success fail.
Proof.
  intros H.
  assert (G : force_flags_length_lt_1 data1 = force_flags_length_lt_1 data2).
  { unfold force_flags_length_lt_1. now rewrite H. }
  destruct s; simpl testClusterSetup; unfold_responders; rewrite ?G; reflexivity.
Qed.


(** *** What the callbacks are called with *)

Ltac responder_cases s data :=
  destruct s; simpl testClusterSetup; unfold_responders; case_url;
  try match goal with
      | |- context [force_flags_length_lt_1 data] =>
          destruct (force_flags_length_lt_1 data) as [[|]|] eqn:?
      end.

(** Chooses the behaviour of the case at hand and leaves [tac] what is to
    be shown of it. *)
Ltac behaviour_with tac :=
  first
    [ eexists (Calls OnSuccess _); split; [intros; reflexivity | tac]
    | eexists (Calls OnFailure _); split; [intros; reflexivity | tac]
    | exists ReturnsUndefined; split; [intros; reflexivity | tac]
    | eexists (Raises _); split; [intros; reflexivity | tac] ].

(** What a failure is reported with: nothing, or a status and a message. *)
Definition failure_shape (s : Scenario) (url : jsstring) (args : list JSValue) : Prop :=
  (args = [] /\ s = CheckAuthFails /\ url = url_check_auth)
  \/ (exists status message,
        args = [VNum (number_of_N status); VStr message]
        /\ (status = 403 \/ status = 500)%N).

Lemma failure_behaves (s : Scenario) (url : jsstring) (data : JSValue) :
  exists b,
    (forall success fail st,
        testClusterSetup s url data success fail st = behave b success fail st)
    /\ (forall args, b = Calls OnFailure args -> failure_shape s url args).
Proof.
  responder_cases s data;
    behaviour_with
      ltac:(intros ? E; try discriminate E; injection E as <-;
            first [ left; repeat split; trivial; now apply jsstring_eqb_eq
                  | right; eexists; eexists; split; [reflexivity | auto] ]).
Qed.

(** X4: whenever a scenario function calls the failure callback, it passes
    either no argument at all, which only [checkAuthFails] does, on the
    auth-check URL, or a status, 403 or 500, followed by a message string. *)
Theorem failure_arguments (s : Scenario) (url : jsstring) (data : JSValue)
    (on_success on_failure : list JSValue -> Completion JSValue) (st : Store)
    (args : list JSValue) :
  In (Invoked OnFailure args)
     (new_effects st (snd (request s url data on_success on_failure st))) ->
  failure_shape s url args.
Proof.
  destruct (failure_behaves s url data) as (b & Hb & Hshape).
  rewrite (@request_behaves _ _ _ _ _ _ _ Hb).
  destruct b as [[|] args'| |e]; simpl snd.
  - rewrite new_effects_record. intros [H | []]. discriminate H.
  - rewrite new_effects_record. intros [H | []]. injection H as <-. now apply Hshape.
  - rewrite <- (record_nil st) at 2. rewrite new_effects_record. intros [].
  - rewrite <- (record_nil st) at 2. rewrite new_effects_record. intros [].
Qed.

(** *** Which requests are answered *)

(** The URLs a scenario has a case for, its own or [successPath]'s. *)
Definition answers (s : Scenario) (url : jsstring) : bool :=
  match s with
  | CheckAuth500 => (url =? url_check_auth) || (url =? url_send_known_hosts)
  | CheckAuthFails | CheckAuthNodesNotAuth => url =? url_check_auth
  | _ => existsb (jsstring_eqb url) manage_urls
  end.

Lemma answers_behaves (s : Scenario) (url : jsstring) (data : JSValue) :
  exists b,
    (forall success fail st,
        testClusterSetup s url data success fail st = behave b success fail st)
    /\ (answers s url = false <-> b = ReturnsUndefined).
Proof.
  responder_cases s data;
    behaviour_with
      ltac:(unfold answers, manage_urls; cbn [existsb];
            repeat match goal with
                   | H : (_ =? _) = _ |- _ => rewrite H; clear H
                   end;
            simpl; rewrite ?orb_true_r;
            split; intros E; first [reflexivity | discriminate E]).
Qed.

Lemma record_changes (st : Store) (e : Event) : record st [e] <> st.
Proof.
  intros H. apply (f_equal (fun x => List.length (effects x))) in H.
  unfold record in H; simpl in H. rewrite length_app in H. simpl in H. lia.
Qed.

(** X5: an invocation calls neither callback and returns [undefined]
    exactly when the scenario has no case for the URL: [checkAuth500]
    answers the auth check and the trust distribution only,
    [checkAuthFails] and [checkAuthNodesNotAuth] the auth check only, so
    under them the cluster-setup and remember-cluster requests stay
    unanswered; every other scenario answers the four [/manage/...]
    endpoints. *)
Theorem unanswered_requests (s : Scenario) (url : jsstring) (data : JSValue)
    (on_success on_failure : list JSValue -> Completion JSValue) (st : Store) :
  answers s url = false
  <-> request s url data on_success on_failure st = (Normal VUndefined, st).
Proof.
  destruct (answers_behaves s url data) as (b & Hb & Hiff).
  rewrite (@request_behaves _ _ _ _ _ _ _ Hb), Hiff.
  destruct b as [cb args| |e]; split; intros H; try discriminate H; trivial.
  exfalso. injection H as _ H. now apply record_changes in H.
Qed.

(** *** The bodies of the other endpoints *)

(** The members of [dev.fixture] a setup call is answered with. *)
Definition setup_fixtures : list JSValue :=
  [dev_fixture_success; dev_fixture_libErrorUnforcibleLarge; dev_fixture_libException;
   dev_fixture_libError true; dev_fixture_libError false].

Lemma cluster_setup_behaves (s : Scenario) (data : JSValue) :
  exists b,
    (forall success fail st,
        testClusterSetup s url_cluster_setup data success fail st
          = behave b success fail st)
    /\ (forall args, b = Calls OnSuccess args ->
          exists fx, In fx setup_fixtures /\ args = [JSON_stringify fx]).
Proof.
  destruct s; simpl testClusterSetup;
    try match goal with
        | |- context [clusterSetupForceFail] =>
            unfold clusterSetupForceFail; rewrite jsstring_eqb_refl;
            destruct (force_flags_length_lt_1 data) as [[|]|] eqn:?
        | |- context [clusterSetupForce _ _] =>
            unfold clusterSetupForce; rewrite jsstring_eqb_refl;
            destruct (force_flags_length_lt_1 data) as [[|]|] eqn:?
        end;
    behaviour_with
      ltac:(intros ? E;
            first [ discriminate E
                  | injection E as <-; eexists; split; [|reflexivity]; simpl; auto 7 ]).
Qed.

(** X6: whenever a scenario function answers the cluster-setup endpoint
    through the success callback, the body is [JSON.stringify] of a member
    of [dev.fixture]: [success], [libErrorUnforcibleLarge], [libException],
    or [libError] of [true] or [false]. *)
Theorem cluster_setup_bodies (s : Scenario) (data : JSValue)
    (on_success on_failure : list JSValue -> Completion JSValue) (st : Store)
    (args : list JSValue) :
  In (Invoked OnSuccess args)
     (new_effects st (snd (request s url_cluster_setup data on_success on_failure st))) ->
  exists fx, In fx setup_fixtures /\ args = [JSON_stringify fx].
Proof.
  destruct (cluster_setup_behaves s data) as (b & Hb & Hshape).
  rewrite (@request_behaves _ _ _ _ _ _ _ Hb).
  destruct b as [[|] args'| |e]; simpl snd.
  - rewrite new_effects_record. intros [H | []]. injection H as <-. now apply Hshape.
  - rewrite new_effects_record. intros [H | []]. discriminate H.
  - rewrite <- (record_nil st) at 2. rewrite new_effects_record. intros [].
  - rewrite <- (record_nil st) at 2. rewrite new_effects_record. intros [].
Qed.


(** *** The nodes of the dialog and of the auth check *)

(** The values [prefill] writes into the node inputs of the dialog. *)
Definition prefilled_nodes : list jsstring :=
  flat_map (fun e => match e with
                     | SetVal selector value =>
                         if selector =? clustername_input then [] else [value]
                     | _ => []
                     end)
           (effects (snd (prefill loaded))).

(** The body of an auth check: a status for each prefilled node. *)
Definition node_statuses (statuses : list jsstring) : JSValue :=
  JSON_stringify (VObj (combine prefilled_nodes (map VStr statuses))).

Ltac pick_statuses l :=
  exists (Calls OnSuccess [node_statuses l]);
  split; [intros; reflexivity
         | intros ? E; injection E as <-; exists l; split; reflexivity].

Lemma check_auth_behaves (s : Scenario) (data : JSValue) :
  exists b,
    (forall success fail st,
        testClusterSetup s url_check_auth data success fail st
          = behave b success fail st)
    /\ (forall args, b = Calls OnSuccess args ->
          exists statuses,
            List.length statuses = List.length prefilled_nodes
            /\ args = [node_statuses statuses]).
Proof.
  destruct s;
    first
      [ pick_statuses [str "Online"; str "Online"; str "Online"]
      | pick_statuses [str "Online"; str "Unable to authenticate"; str "Cant connect"]
      | eexists (Calls OnFailure _); split;
        [intros; reflexivity | intros ? E; discriminate E] ].
Qed.

(** X7: whenever a scenario function answers the auth check through the
    success callback, the body is the JSON text of an object that gives a
    status string to each node name [prefill] has put into the dialog, in
    the same order, and to no other. *)
Theorem check_auth_reports_prefilled_nodes (s : Scenario) (data : JSValue)
    (on_success on_failure : list JSValue -> Completion JSValue) (st : Store)
    (args : list JSValue) :
  In (Invoked OnSuccess args)
     (new_effects st (snd (request s url_check_auth data on_success on_failure st))) ->
  exists statuses,
    List.length statuses = List.length prefilled_nodes
    /\ args = [JSON_stringify (VObj (combine prefilled_nodes (map VStr statuses)))].
Proof.
  destruct (check_auth_behaves s data) as (b & Hb & Hshape).
  rewrite (@request_behaves _ _ _ _ _ _ _ Hb).
  destruct b as [[|] args'| |e]; simpl snd.
  - rewrite new_effects_record. intros [H | []]. injection H as <-. now apply Hshape.
  - rewrite new_effects_record. intros [H | []]. discriminate H.
  - rewrite <- (record_nil st) at 2. rewrite new_effects_record. intros [].
  - rewrite <- (record_nil st) at 2. rewrite new_effects_record. intros [].
Qed.

(** *** The force-flag responders, before and after forcing *)

(** X8: for a payload on which [force_flags.length < 1] is true, the three
    force scenarios are one and the same on every URL; for a payload on
    which it is false, [clusterSetupForce] is [successPath] on every URL. *)
Theorem force_scenarios_coincide (data : JSValue) :
  (force_flags_length_lt_1 data = Normal true ->
   forall url success fail,
     clusterSetupForceFail url data success fail
       = clusterSetupForceFailForcible url data success fail
     /\ clusterSetupForce url data success fail
       = clusterSetupForceFailForcible url data success fail)
  /\ (force_flags_length_lt_1 data = Normal false ->
      forall url success fail,
        clusterSetupForce url data success fail = successPath url data success fail).
Proof.
  split; intros G url success fail;
    unfold clusterSetupForceFail, clusterSetupForce, clusterSetupForceFailForcible;
    destruct (url =? url_cluster_setup); rewrite ?G; auto.
Qed.

(** X9: [setup_data] has to be text.  When it is [undefined], [null], a
    boolean or a plain object (the decoded value instead of its JSON text),
    both force-flag responders throw on the cluster-setup URL, a
    SyntaxError or a TypeError, and call no callback. *)
Theorem setup_data_must_be_text (data v : JSValue) :
  GetV data setup_data = Normal v ->
  v = VUndefined \/ v = VNull \/ (exists b, v = VBool b) \/ (exists props, v = VObj props) ->
  exists e,
    (e = SyntaxError \/ e = TypeError) /\ raises_on_cluster_setup data e.
Proof.
  intros Hv Hkind.
  assert (G : exists e, (e = SyntaxError \/ e = TypeError)
                        /\ force_flags_length_lt_1 data = Throw e).
  { unfold force_flags_length_lt_1. rewrite Hv. simpl cbind.
    destruct Hkind as [-> | [-> | [[[|] ->] | [props ->]]]].
    - exists SyntaxError. split; [now left | reflexivity].
    - exists TypeError. split; [now right | reflexivity].
    - exists TypeError. split; [now right | reflexivity].
    - exists TypeError. split; [now right | reflexivity].
    - unfold JSON_parse, ToString.
      destruct (has_own_property props (str "toString")).
      + exists TypeError. split; [now right | reflexivity].
      + exists SyntaxError. split; [now left | reflexivity]. }
  destruct G as (e & He & G). exists e. split; trivial.
  intros success fail st. now apply raise_of_guard.
Qed.

(** *** Injected failures *)





(** *** What a run of the harness leaves behind *)

Definition is_prefill (a : Action) : bool :=
  match a with
  | Prefill => true
  | _ => false
  end.

(** A call of the overview function for "/clusters_overview". *)
Definition is_overview_fetch (a : Action) : bool :=
  match a with
  | Overview url => url =? url_clusters_overview
  | _ => false
  end.

Definition is_request (a : Action) : bool :=
  match a with
  | Request _ _ _ _ _ => true
  | _ => false
  end.

Definition is_undefined (v : JSValue) : bool :=
  match v with
  | VUndefined => true
  | _ => false
  end.

(** The calls to the dialog and its inputs, to the console, and to the
    callbacks. *)
Definition is_dialog_event (e : Event) : bool :=
  match e with
  | DialogCreate | SetVal _ _ => true
  | _ => false
  end.

Definition is_console_event (e : Event) : bool :=
  match e with
  | ConsoleGroup _ | ConsoleLog _ | ConsoleGroupEnd => true
  | _ => false
  end.

Definition is_invoked (e : Event) : bool :=
  match e with
  | Invoked _ _ => true
  | _ => false
  end.

Lemma perform_prefill (st : Store) :
  snd (perform Prefill st)
    = if wasRun st then st
      else record (mkStore true (cluster_overview_run st) (effects st)) prefill_events.
Proof.
  simpl perform. destruct (wasRun st) eqn:W.
  - now rewrite prefill_later.
  - now rewrite prefill_first.
Qed.

Lemma perform_overview (url : jsstring) (st : Store) :
  snd (perform (Overview url) st)
    = if (url =? url_clusters_overview) && is_undefined (cluster_overview_run st)
      then record (mkStore (wasRun st) (VBool true) (effects st)) overview_events
      else st.
Proof.
  simpl perform. destruct (url =? url_clusters_overview) eqn:U.
  - apply jsstring_eqb_eq in U. subst url.
    destruct (cluster_overview_run st) eqn:F; simpl;
      try (rewrite overview_later; [reflexivity | rewrite F; discriminate]).
    now rewrite overview_first.
  - rewrite overview_other; trivial.
    intros ->. now rewrite jsstring_eqb_refl in U.
Qed.

Lemma perform_request (s : Scenario) (url : jsstring) (data : JSValue)
    (ons onf : list JSValue -> Completion JSValue) (st : Store) :
  snd (perform (Request s url data ons onf) st) = st
  \/ exists cb args, snd (perform (Request s url data ons onf) st)
                     = record st [Invoked cb args].
Proof.
  simpl perform. destruct (responder_behaves s url data) as (b & Hb & _).
  rewrite (@request_behaves _ _ _ _ _ _ _ Hb).
  destruct b as [cb args| |e]; simpl; eauto.
Qed.

(** The invariant of a run, from any state. *)
Lemma run_flags (acts : list Action) (st : Store) :
  wasRun (perform_all acts st) = wasRun st || existsb is_prefill acts
  /\ cluster_overview_run (perform_all acts st)
     = if is_undefined (cluster_overview_run st) && existsb is_overview_fetch acts
       then VBool true else cluster_overview_run st.
Proof.
  revert st. induction acts as [|a acts IH]; intros st.
  - simpl. rewrite orb_false_r, andb_false_r. auto.
  - cbn [perform_all existsb]. destruct (IH (snd (perform a st))) as [IHw IHf].
    rewrite IHw, IHf. clear IH IHw IHf.
    destruct a as [|url|s url data ons onf].
    + rewrite perform_prefill. cbn [is_prefill is_overview_fetch].
      destruct (wasRun st) eqn:W; simpl; rewrite ?W; auto.
    + rewrite perform_overview. cbn [is_prefill is_overview_fetch].
      destruct (url =? url_clusters_overview); simpl; auto.
      destruct (cluster_overview_run st) eqn:F; simpl; rewrite ?F; simpl; auto.
    + cbn [is_prefill is_overview_fetch].
      destruct (perform_request s url data ons onf st) as [-> | (cb & args & ->)];
        simpl; auto.
Qed.

(** X11: after any sequence of calls from the load state, [wasRun] is set
    exactly when [prefill] has been called, and
    [dev.flags.cluster_overview_run] is [true] exactly when the overview
    function has been called for "/clusters_overview", and [undefined]
    otherwise: requests never touch either flag, and neither one-shot
    touches the other's flag. *)
Theorem flags_record_history (acts : list Action) :
  wasRun (perform_all acts loaded) = existsb is_prefill acts
  /\ cluster_overview_run (perform_all acts loaded)
     = if existsb is_overview_fetch acts then VBool true else VUndefined.
Proof.
  exact (run_flags acts loaded).
Qed.

Lemma run_dialog_events (acts : list Action) (st : Store) :
  filter is_dialog_event (effects (perform_all acts st))
    = filter is_dialog_event (effects st)
      ++ (if negb (wasRun st) && existsb is_prefill acts then prefill_events else []).
Proof.
  revert st. induction acts as [|a acts IH]; intros st.
  - simpl. now rewrite andb_false_r, app_nil_r.
  - cbn [perform_all existsb]. rewrite IH. clear IH.
    destruct a as [|url|s url data ons onf]; cbn [is_prefill].
    + rewrite perform_prefill. destruct (wasRun st) eqn:W; simpl.
      * now rewrite W.
      * now rewrite filter_app, app_nil_r.
    + rewrite perform_overview.
      destruct ((url =? url_clusters_overview)
                && is_undefined (cluster_overview_run st)); simpl; trivial.
      now rewrite filter_app, app_nil_r.
    + destruct (perform_request s url data ons onf st) as [-> | (cb & args & ->)];
        simpl; trivial.
      now rewrite filter_app, app_nil_r.
Qed.

Lemma run_console_events (acts : list Action) (st : Store) :
  filter is_console_event (effects (perform_all acts st))
    = filter is_console_event (effects st)
      ++ (if is_undefined (cluster_overview_run st) && existsb is_overview_fetch acts
          then overview_events else []).
Proof.
  revert st. induction acts as [|a acts IH]; intros st.
  - simpl. now rewrite andb_false_r, app_nil_r.
  - cbn [perform_all existsb]. rewrite IH. clear IH.
    destruct a as [|url|s url data ons onf]; cbn [is_overview_fetch].
    + rewrite perform_prefill. destruct (wasRun st); simpl; trivial.
      now rewrite filter_app, app_nil_r.
    + rewrite perform_overview.
      destruct (url =? url_clusters_overview); simpl; trivial.
      destruct (cluster_overview_run st) eqn:F; simpl; rewrite ?F; simpl; trivial.
      now rewrite filter_app, app_nil_r.
    + destruct (perform_request s url data ons onf st) as [-> | (cb & args & ->)];
        simpl; trivial.
      now rewrite filter_app, app_nil_r.
Qed.

(** X12: in any sequence of calls from the load state, the dialog is
    created and its four inputs are filled once, if [prefill] is called at
    all, however often it is called and whatever is called in between; and
    the console group of the overview function is written once, if that
    function is called for "/clusters_overview" at all. *)
Theorem one_shots_run_once (acts : list Action) :
  filter is_dialog_event (effects (perform_all acts loaded))
    = (if existsb is_prefill acts then prefill_events else [])
  /\ filter is_console_event (effects (perform_all acts loaded))
     = (if existsb is_overview_fetch acts then overview_events else []).
Proof.
  split.
  - exact (run_dialog_events acts loaded).
  - exact (run_console_events acts loaded).
Qed.

Lemma run_invocations (acts : list Action) (st : Store) :
  List.length (filter is_invoked (effects (perform_all acts st)))
    <= List.length (filter is_invoked (effects st))
       + List.length (filter is_request acts).
Proof.
  revert st. induction acts as [|a acts IH]; intros st.
  - simpl. lia.
  - cbn [perform_all]. specialize (IH (snd (perform a st))).
    assert (Hstep : List.length (filter is_invoked (effects (snd (perform a st))))
                    <= List.length (filter is_invoked (effects st))
                       + (if is_request a then 1 else 0)).
    { destruct a as [|url|s url data ons onf]; cbn [is_request].
      - rewrite perform_prefill. destruct (wasRun st); simpl; [lia|].
        rewrite filter_app, length_app. simpl. lia.
      - rewrite perform_overview.
        destruct ((url =? url_clusters_overview)
                  && is_undefined (cluster_overview_run st)); simpl; [|lia].
        rewrite filter_app, length_app. simpl. lia.
      - destruct (perform_request s url data ons onf st) as [-> | (cb & args & ->)];
          simpl; [lia|].
        rewrite filter_app, length_app. simpl. lia. }
    cbn [filter]. destruct (is_request a); simpl; lia.
Qed.

(** X13: in any sequence of calls from the load state, the callbacks are
    called at most as many times as there are requests: no request is
    answered twice, and [prefill] and the overview function call no
    callback. *)
Theorem callbacks_bounded_by_requests (acts : list Action) :
  List.length (filter is_invoked (effects (perform_all acts loaded)))
    <= List.length (filter is_request acts).
Proof.
  exact (run_invocations acts loaded).
Qed.

End Properties.

(** ** The theorems on concrete requests *)

Existing Instance sample_numbers.
Existing Instance sample_fixtures.

(** Text written with apostrophes for the double quotes of JSON. *)
Definition json_text (s : string) : jsstring :=
  map (fun c => if (c =? 39)%N then 34%N else c) (str s).
Arguments json_text s%_string.

Example setup_payload_text :
  setup_payload (VArr [])
    = VObj [(str "setup_data", VStr (json_text "{'force_flags':[]}"))]
  /\ setup_payload force_flag
    = VObj [(str "setup_data", VStr (json_text "{'force_flags':['--force']}"))].
Proof. split; reflexivity. Qed.

Example check_auth_body :
  JSON_stringify (VObj [(str "dave8", VStr (str "Online"));
                        (str "kryten8", VStr (str "Online"));
                        (str "holly8", VStr (str "Online"))])
    = VStr (json_text "{'dave8':'Online','kryten8':'Online','holly8':'Online'}").
Proof. reflexivity. Qed.

Example JSON_parse_values :
  JSON_parse_text (json_text " [1, {'b': [true, null], 'a': '\u0041\n', 'b': -2}] ")
    = Normal (VArr [VNum (SInt 1);
                    VObj [(str "b", VNum (SInt (-2))); (str "a", VStr [65; 10]%N)]])
  /\ JSON_parse_text (json_text "{'force_flags':[],}") = Throw SyntaxError
  /\ JSON_parse_text (json_text "[01]") = Throw SyntaxError
  /\ JSON_parse_text (str "undefined") = Throw SyntaxError
  /\ JSON_parse (VArr [VStr (json_text "{'force_flags':"); VStr (str "1]}")])
      = Throw SyntaxError
  /\ JSON_parse (VArr [VStr (json_text "{'force_flags':[0"); VStr (str "1]}")])
      = Normal (VObj [(str "force_flags", VArr [VNum (SInt 0); VNum (SInt 1)])]).
Proof. repeat split; reflexivity. Qed.

(** The lengths of the bodies the callbacks were called with. *)
Definition body_length (v : JSValue) : nat :=
  match v with
  | VStr s => List.length s
  | _ => 0
  end.

Definition body_lengths (st : Store) : list (list nat) :=
  map (fun e => match e with
                | Invoked _ args => map body_length args
                | _ => []
                end) (effects st).

Lemma forceFail_by_force_flags_witness :
  force_flags_of (setup_payload (VArr [])) []
  /\ clusterSetupForceFail url_cluster_setup (setup_payload (VArr []))
       (spy OnSuccess no_answer) (spy OnFailure no_answer)
     = clusterSetupForceFailForcible url_cluster_setup (setup_payload (VArr []))
         (spy OnSuccess no_answer) (spy OnFailure no_answer).
Proof.
  assert (H : force_flags_of (setup_payload (VArr [])) []).
  { eexists. split; reflexivity. }
  split; [exact H|].
  exact (proj2 (proj1 (forceFail_by_force_flags _ _ _ _ H) eq_refl)).
Defined.

(** C1 as stated fails: with [force_flags: []] the body passed is the one
    of [libError(true)], the forcible fixture, which is not the one of
    [libError(false)]; with [force_flags: ["--force"]] the responder does
    not do what [clusterSetupForceFailForcible] does. *)
Lemma forceFail_is_not_as_stated :
  request ClusterSetupForceFail url_cluster_setup (setup_payload (VArr []))
      no_answer no_answer loaded
    = (Normal VUndefined,
       record loaded [Invoked OnSuccess [JSON_stringify (dev_fixture_libError true)]])
  /\ JSON_stringify (dev_fixture_libError true)
     <> JSON_stringify (dev_fixture_libError false)
  /\ request ClusterSetupForceFail url_cluster_setup (setup_payload force_flag)
       no_answer no_answer loaded
     <> request ClusterSetupForceFailForcible url_cluster_setup (setup_payload force_flag)
          no_answer no_answer loaded.
Proof.
  split; [reflexivity|].
  split; intros H.
  - apply (f_equal body_length) in H. lazy in H. discriminate H.
  - apply (f_equal (fun r => body_lengths (snd r))) in H. lazy in H. discriminate H.
Qed.

(** C2 as stated fails: on the overview URL [successPath] calls no
    callback and returns [undefined]. *)
Lemma successPath_leaves_overview :
  request SuccessPath url_clusters_overview VUndefined no_answer no_answer loaded
    = (Normal VUndefined, loaded).
Proof. reflexivity. Qed.

(** C3 as stated fails: with a payload that has no [setup_data],
    [clusterSetupForceFail] on the cluster-setup URL calls no callback and
    does not return: it throws. *)
Lemma forceFail_throws_without_setup_data :
  request ClusterSetupForceFail url_cluster_setup (VObj []) no_answer no_answer loaded
    = (Throw SyntaxError, loaded).
Proof. reflexivity. Qed.

Lemma delegation_is_successPath_witness :
  delegating_case SendKnownHosts403 = Some url_send_known_hosts
  /\ url_cluster_setup <> url_send_known_hosts
  /\ testClusterSetup SendKnownHosts403 url_cluster_setup VUndefined
       (spy OnSuccess no_answer) (spy OnFailure no_answer)
     = successPath url_cluster_setup VUndefined
         (spy OnSuccess no_answer) (spy OnFailure no_answer).
Proof.
  assert (H : url_cluster_setup <> url_send_known_hosts).
  { intros E. cbv in E. discriminate E. }
  split; [reflexivity|]. split; [exact H|].
  exact (proj1 (delegation_is_successPath SendKnownHosts403 _ _ VUndefined
                  (spy OnSuccess no_answer) (spy OnFailure no_answer) eq_refl H)).
Defined.

Lemma force_fails_then_succeeds_witness :
  force_flags_of (setup_payload (VArr [])) []
  /\ force_flags_of (setup_payload force_flag) [VStr (str "--force")]
  /\ snd (request ClusterSetupForce url_cluster_setup (setup_payload force_flag)
            no_answer no_answer
            (snd (request ClusterSetupForce url_cluster_setup (setup_payload (VArr []))
                    no_answer no_answer loaded)))
     = record loaded
         [Invoked OnSuccess [JSON_stringify (dev_fixture_libError true)];
          Invoked OnSuccess [JSON_stringify dev_fixture_success]].
Proof.
  assert (H1 : force_flags_of (setup_payload (VArr [])) []).
  { eexists. split; reflexivity. }
  assert (H2 : force_flags_of (setup_payload force_flag) [VStr (str "--force")]).
  { eexists. split; reflexivity. }
  assert (Hne : [VStr (str "--force")] <> []) by discriminate.
  split; [exact H1|]. split; [exact H2|].
  exact (f_equal snd
           (proj2 (proj2 (force_fails_then_succeeds _ _ _ no_answer no_answer loaded
                            H1 H2 Hne)))).
Defined.

Lemma one_shot_initialization_witness :
  fst (overview_override url_clusters_overview
         (perform_all [Prefill; Overview url_check_auth] loaded))
    = Normal mock_clusters_overview
  /\ wasRun (perform_all [Overview url_clusters_overview; Prefill]
               (snd (prefill (perform_all [Overview url_clusters_overview] loaded))))
     = true.
Proof.
  split.
  - refine (proj1 (proj1 (one_shot_initialization [Prefill; Overview url_check_auth] [])
                     _)).
    intros a [<- | [<- | []]]; intros E;
      first [discriminate E | injection E as E; cbv in E; discriminate E].
  - refine (proj1 (proj2 (proj2 (one_shot_initialization
                                   [Overview url_clusters_overview]
                                   [Overview url_clusters_overview; Prefill]) _))).
    intros a [<- | []]; discriminate.
Defined.

Lemma send_known_hosts_bodies_witness :
  exists body, [VStr (str "error")] = [VStr body] /\ In body trust_bodies.
Proof.
  apply (send_known_hosts_bodies SendKnownHostsFail VUndefined no_answer no_answer loaded).
  left. reflexivity.
Defined.

Lemma checkAuthFails_behaviour_witness :
  url_remember_cluster <> url_check_auth
  /\ checkAuthFails url_remember_cluster VUndefined
       (spy OnSuccess no_answer) (spy OnFailure no_answer)
     = ret VUndefined.
Proof.
  assert (H : url_remember_cluster <> url_check_auth).
  { intros E. cbv in E. discriminate E. }
  split; [exact H|].
  exact (proj2 (checkAuthFails_behaviour VUndefined
                  (spy OnSuccess no_answer) (spy OnFailure no_answer)) _ H).
Defined.

Lemma force_flag_responders_partial_witness :
  (exists e, raises_on_cluster_setup (VObj []) e)
  /\ clusterSetupForce url_cluster_setup (setup_payload force_flag)
       (spy OnSuccess no_answer) (spy OnFailure no_answer)
     = spy OnSuccess no_answer [JSON_stringify dev_fixture_success].
Proof.
  split.
  - apply (proj1 (proj2 (force_flag_responders_partial (VObj [])))).
    right. right. left. reflexivity.
  - apply (proj1 (force_flag_responders_partial (setup_payload force_flag))
             [VStr (str "--force")]).
    eexists. split; reflexivity.
Defined.

(** C9 as stated fails: a [force_flags] that is [true] has no [length], and
    yet neither responder throws: [clusterSetupForceFail] calls the success
    callback, and [clusterSetupForce] does what [successPath] does. *)
Lemma no_length_does_not_throw :
  decoded_setup_data (setup_payload (VBool true))
    = Normal (VObj [(str "force_flags", VBool true)])
  /\ GetV (VBool true) length_ = Normal VUndefined
  /\ request ClusterSetupForceFail url_cluster_setup (setup_payload (VBool true))
       no_answer no_answer loaded
     = (Normal VUndefined,
        record loaded [Invoked OnSuccess [JSON_stringify (dev_fixture_libError false)]])
  /\ request ClusterSetupForce url_cluster_setup (setup_payload (VBool true))
       no_answer no_answer loaded
     = (Normal VUndefined,
        record loaded [Invoked OnSuccess [JSON_stringify dev_fixture_success]]).
Proof.
  repeat split; reflexivity.
Qed.

(** ** The further properties on concrete requests *)

Lemma unknown_url_is_ignored_witness :
  ~ In url_clusters_overview manage_urls
  /\ testClusterSetup ClusterSetupForce url_clusters_overview VUndefined
       (spy OnSuccess no_answer) (spy OnFailure no_answer)
     = ret VUndefined.
Proof.
  assert (H : ~ In url_clusters_overview manage_urls).
  { intros [E | [E | [E | [E | []]]]]; cbv in E; discriminate E. }
  split; [exact H|].
  exact (unknown_url_is_ignored ClusterSetupForce url_clusters_overview VUndefined
           (spy OnSuccess no_answer) (spy OnFailure no_answer) H).
Defined.

Lemma payload_is_ignored_witness :
  decodes_payload ClusterSetupForce url_send_known_hosts = false
  /\ testClusterSetup ClusterSetupForce url_send_known_hosts VUndefined
       (spy OnSuccess no_answer) (spy OnFailure no_answer)
     = testClusterSetup ClusterSetupForce url_send_known_hosts (setup_payload force_flag)
         (spy OnSuccess no_answer) (spy OnFailure no_answer).
Proof.
  split; [reflexivity|].
  exact (payload_is_ignored ClusterSetupForce url_send_known_hosts VUndefined
           (setup_payload force_flag) (spy OnSuccess no_answer) (spy OnFailure no_answer)
           eq_refl).
Defined.

(** [{setup_data: JSON.stringify({force_flags: ["--force"]}), debug: null}] *)
Definition setup_payload_and_more : JSValue :=
  VObj [(str "setup_data", JSON_stringify (VObj [(str "force_flags", force_flag)]));
        (str "debug", VNull)].

Lemma only_setup_data_is_read_witness :
  GetV setup_payload_and_more setup_data = GetV (setup_payload force_flag) setup_data
  /\ testClusterSetup ClusterSetupForceFail url_cluster_setup setup_payload_and_more
       (spy OnSuccess no_answer) (spy OnFailure no_answer)
     = testClusterSetup ClusterSetupForceFail url_cluster_setup (setup_payload force_flag)
         (spy OnSuccess no_answer) (spy OnFailure no_answer).
Proof.
  split; [reflexivity|].
  exact (only_setup_data_is_read ClusterSetupForceFail url_cluster_setup
           setup_payload_and_more (setup_payload force_flag)
           (spy OnSuccess no_answer) (spy OnFailure no_answer) eq_refl).
Defined.

Lemma failure_arguments_witness :
  failure_shape ClusterSetup403 url_cluster_setup
    [VNum (number_of_N 403); VStr (str "Permission denied.")].
Proof.
  apply (failure_arguments ClusterSetup403 url_cluster_setup VUndefined
           no_answer no_answer loaded).
  left. reflexivity.
Defined.

Lemma unanswered_requests_witness :
  answers CheckAuth500 url_cluster_setup = false
  /\ request CheckAuth500 url_cluster_setup VUndefined no_answer no_answer loaded
     = (Normal VUndefined, loaded).
Proof.
  split; [reflexivity|].
  exact (proj1 (unanswered_requests CheckAuth500 url_cluster_setup VUndefined
                  no_answer no_answer loaded) eq_refl).
Defined.

Lemma cluster_setup_bodies_witness :
  exists fx,
    In fx setup_fixtures
    /\ [JSON_stringify dev_fixture_libException] = [JSON_stringify fx].
Proof.
  apply (cluster_setup_bodies ClusterSetupException VUndefined
           no_answer no_answer loaded).
  left. reflexivity.
Defined.

Lemma check_auth_reports_prefilled_nodes_witness :
  prefilled_nodes = [str "dave8"; str "kryten8"; str "holly8"]
  /\ exists statuses,
       List.length statuses = List.length prefilled_nodes
       /\ [JSON_stringify (VObj [(str "dave8", VStr (str "Online"));
                                 (str "kryten8", VStr (str "Unable to authenticate"));
                                 (str "holly8", VStr (str "Cant connect"))])]
          = [JSON_stringify (VObj (combine prefilled_nodes (map VStr statuses)))].
Proof.
  split; [reflexivity|].
  apply (check_auth_reports_prefilled_nodes CheckAuthNodesNotAuth VUndefined
           no_answer no_answer loaded).
  left. reflexivity.
Defined.

Lemma force_scenarios_coincide_witness :
  force_flags_length_lt_1 (setup_payload (VArr [])) = Normal true
  /\ force_flags_length_lt_1 (setup_payload force_flag) = Normal false
  /\ clusterSetupForce url_remember_cluster (setup_payload (VArr []))
       (spy OnSuccess no_answer) (spy OnFailure no_answer)
     = clusterSetupForceFailForcible url_remember_cluster (setup_payload (VArr []))
         (spy OnSuccess no_answer) (spy OnFailure no_answer)
  /\ clusterSetupForce url_cluster_setup (setup_payload force_flag)
       (spy OnSuccess no_answer) (spy OnFailure no_answer)
     = successPath url_cluster_setup (setup_payload force_flag)
         (spy OnSuccess no_answer) (spy OnFailure no_answer).
Proof.
  split; [reflexivity|]. split; [reflexivity|]. split.
  - exact (proj2 (proj1 (force_scenarios_coincide (setup_payload (VArr []))) eq_refl
                    url_remember_cluster
                    (spy OnSuccess no_answer) (spy OnFailure no_answer))).
  - exact (proj2 (force_scenarios_coincide (setup_payload force_flag)) eq_refl
             url_cluster_setup (spy OnSuccess no_answer) (spy OnFailure no_answer)).
Defined.

(** [{setup_data: {force_flags: []}}]: the object, not its JSON text. *)
Definition undecoded_payload : JSValue :=
  VObj [(str "setup_data", VObj [(str "force_flags", VArr [])])].

Lemma setup_data_must_be_text_witness :
  exists e,
    (e = SyntaxError \/ e = TypeError) /\ raises_on_cluster_setup undecoded_payload e.
Proof.
  apply (setup_data_must_be_text undecoded_payload
           (VObj [(str "force_flags", VArr [])])).
  - reflexivity.
  - right. right. right. eexists. reflexivity.
Defined.

